(** * accounts: key pair, Ethereum and Bitcoin address derivation, validation

    A shallow embedding of the wallet program of [accounts/accounts.go]
    (package main: [NewWallet], [GetEthAddress], [GetBtcAddress],
    [HashPubKey], [checksum], [newKeyPair], [ValidateAddress]) and of the
    parts of the Go runtime and libraries it runs on.

    - Go byte slices carry their capacity: a re-slice [s[:n]] is checked
      against [cap s], an index against [len s].
    - A run-time panic, the standard output and the heap of wallets are
      explicit: a computation is a function from a [World] to a result and
      a [World].
    - The hash primitives (SHA-256, RIPEMD-160, Keccak-256) are parameters
      of the development, known only through their digest lengths. *)

From Stdlib Require Import ZArith NArith String Ascii Bool Lia List DecimalString.
From Stdlib Require Import Strings.Byte.
Import ListNotations.

Local Open Scope Z_scope.

(** ** Bytes *)

Definition byte_val (b : byte) : Z := Z.of_N (Byte.to_N b).

Definition byte_of_Z (z : Z) : byte :=
  match Byte.of_N (Z.to_N z) with
  | Some b => b
  | None => x00
  end.

(** ** The Go runtime: slices, panics, standard output *)

Module Go.

(** A slice seen from its first element: the [len] elements it gives
    access to, and the rest of its backing array up to the capacity. *)
Record slice := mkSlice { elems : list byte; spare : list byte }.

Definition make (l : list byte) : slice := mkSlice l [].

Definition len (s : slice) : Z := Z.of_nat (length (elems s)).
Definition cap (s : slice) : Z :=
  Z.of_nat (length (elems s) + length (spare s)).

(** What a panic carries: the run-time errors of slicing, indexing and
    dereferencing, or the value given to [log.Panic]. *)
Inductive panic_value :=
| SliceBoundsOutOfRange (lo hi bound : Z)
| IndexOutOfRange (i length : Z)
| NilPointerDereference
| LogPanic (err : string).

Inductive result (A : Type) :=
| Ok (a : A)
| Panic (p : panic_value).
Arguments Ok {A} a.
Arguments Panic {A} p.

(** [s[lo:hi]]: for a slice the upper bound is the capacity. *)
Definition reslice (s : slice) (lo hi : Z) : result slice :=
  if (0 <=? lo) && (lo <=? hi) && (hi <=? cap s) then
    let arr := elems s ++ spare s in
    Ok (mkSlice (firstn (Z.to_nat (hi - lo)) (skipn (Z.to_nat lo) arr))
                (skipn (Z.to_nat hi) arr))
  else Panic (SliceBoundsOutOfRange lo hi (cap s)).

(** [s[lo:]] *)
Definition slice_from (s : slice) (lo : Z) : result slice :=
  reslice s lo (len s).

(** [s[:hi]] *)
Definition slice_to (s : slice) (hi : Z) : result slice :=
  reslice s 0 hi.

(** [s[i]] *)
Definition index (s : slice) (i : Z) : result byte :=
  if (0 <=? i) && (i <? len s) then Ok (nth (Z.to_nat i) (elems s) x00)
  else Panic (IndexOutOfRange i (len s)).

(** [append(s, xs...)]: in place while the capacity lasts, otherwise a
    fresh zeroed array; [grow n] is the spare capacity the allocator
    leaves behind the [n] elements of the new array. *)
Definition append (grow : nat -> nat) (s : slice) (xs : list byte) : slice :=
  if (length xs <=? length (spare s))%nat
  then mkSlice (elems s ++ xs) (skipn (length xs) (spare s))
  else mkSlice (elems s ++ xs) (repeat x00 (grow (length (elems s ++ xs)))).

End Go.

(** ** math/big: the conversions between byte strings and numbers

    Go's library, as documented: [SetBytes] reads a big-endian unsigned
    integer, [Bytes] returns the big-endian bytes of the absolute value,
    of minimal length. *)

Module big.

(** The digits of [x] in [base], least significant first; [fuel] bounds
    the number of divisions. *)
Fixpoint digits (base : Z) (fuel : nat) (x : Z) : list Z :=
  match fuel with
  | O => []
  | S fuel' =>
      if 0 <? x then (x mod base) :: digits base fuel' (x / base) else []
  end.

(** The value of a list of digits, least significant first. *)
Fixpoint eval (base : Z) (ds : list Z) : Z :=
  match ds with
  | [] => 0
  | d :: ds' => d + base * eval base ds'
  end.

(** A digit list in normal form: digits in range, the most significant
    one (the last) not zero. *)
Fixpoint normal (base : Z) (ds : list Z) : Prop :=
  match ds with
  | [] => True
  | d :: ds' => 0 <= d < base /\ normal base ds' /\ (ds' = [] -> d <> 0)
  end.

Definition BitLen (x : Z) : nat :=
  if 0 <? x then S (Z.to_nat (Z.log2 x)) else O.

(** [SetBytes]: the big-endian unsigned value of a byte string. *)
Definition SetBytes (buf : list byte) : Z :=
  fold_left (fun acc v => acc * 256 + byte_val v) buf 0.

(** [Bytes]: the big-endian bytes of [x], without leading zero bytes. *)
Definition Bytes (x : Z) : list byte :=
  rev (map byte_of_Z (digits 256 (BitLen x) x)).

End big.

(** ** The Base58 codec *)

Module base58.

(** Modelled from the spec: package base58 (imported from btcutil at
    accounts.go:254, called at lines 302 and 345) is missing from the
    sources.  Spec 4.5: the standard 58-symbol alphabet without 0, O, I
    and l; the input read as a big-endian unsigned number; one leading
    '1' per leading zero byte. *)
Definition alphabet : string :=
  "123456789ABCDEFGHJKLMNPQRSTUVWXYZabcdefghijkmnopqrstuvwxyz".

Definition alphabetIdx0 : ascii := "1"%char.

Definition alphabet_at (i : Z) : ascii :=
  nth (Z.to_nat i) (list_ascii_of_string alphabet) alphabetIdx0.

Fixpoint index_from (c : ascii) (l : list ascii) (i : Z) : Z :=
  match l with
  | [] => 255
  | a :: l' => if Ascii.eqb a c then i else index_from c l' (i + 1)
  end.

(** The decoding table: the position of a character in the alphabet,
    255 for a character outside of it. *)
Definition b58 (c : ascii) : Z :=
  index_from c (list_ascii_of_string alphabet) 0.

Fixpoint numZeros (b : list byte) : nat :=
  match b with
  | i :: b' => if Byte.eqb i x00 then S (numZeros b') else O
  | [] => O
  end.

Fixpoint numOnes (s : list ascii) : nat :=
  match s with
  | c :: s' => if Ascii.eqb c alphabetIdx0 then S (numOnes s') else O
  | [] => O
  end.

(** Modelled from the spec: [encode] of spec 4.5.  The digits are
    produced least significant first, the '1' of each leading zero byte
    is added behind them, and the whole is reversed. *)
Definition Encode (b : list byte) : string :=
  let x := big.SetBytes b in
  let answer := map alphabet_at (big.digits 58 (big.BitLen x) x) in
  let answer := answer ++ repeat alphabetIdx0 (numZeros b) in
  string_of_list_ascii (rev answer).

(** The number a string of Base58 digits stands for, most significant
    digit first; [None] at the first character outside the alphabet. *)
Fixpoint value (s : list ascii) (answer : Z) : option Z :=
  match s with
  | [] => Some answer
  | c :: s' =>
      let tmp := b58 c in
      if tmp =? 255 then None else value s' (answer * 58 + tmp)
  end.

Inductive DecodeResult :=
| Decoded (val : list byte)
| InvalidCharacterError.

(** Modelled from the spec: [decode] of spec 4.5, the inverse of
    [Encode], which fails with [InvalidCharacterError] if a character is
    outside the alphabet, and restores one zero byte per leading '1'. *)
Definition base58Decode (s : string) : DecodeResult :=
  let b := list_ascii_of_string s in
  match value b 0 with
  | None => InvalidCharacterError
  | Some answer => Decoded (repeat x00 (numOnes b) ++ big.Bytes answer)
  end.

(** [Decode] as accounts.go:345 calls it: [pubKeyHash :=
    base58.Decode(address)] binds one value, a byte slice, so the
    function has no error result.  The btcutil function returns the
    empty slice for a string with a character outside the alphabet. *)
Definition Decode (s : string) : list byte :=
  match base58Decode s with
  | Decoded val => val
  | InvalidCharacterError => []
  end.

End base58.

(** ** encoding/hex *)

Module hex.

Definition hextable : string := "0123456789abcdef".

Definition hexdigit (i : N) : ascii :=
  nth (N.to_nat i) (list_ascii_of_string hextable) "0"%char.

(** [EncodeToString]: two characters per byte, [hextable[v>>4]] and
    [hextable[v&0x0f]]. *)
Definition EncodeToString (src : list byte) : string :=
  string_of_list_ascii
    (flat_map (fun v => [hexdigit (N.shiftr (Byte.to_N v) 4);
                         hexdigit (N.land (Byte.to_N v) 15)]) src).

End hex.

(** ** The curve and the key generator *)

Module secp256k1.

(** Modelled from the spec: [crypto.S256] and [ecdsa.GenerateKey] are
    missing from the sources.  Spec 4.1 and 3: a fixed named curve with
    32-byte coordinates; the curve is secp256k1, y^2 = x^3 + 7 over the
    field of [P] elements, with base point [(Gx, Gy)] of order [N]. *)
Definition P : Z := 2 ^ 256 - 2 ^ 32 - 977.
Definition N : Z :=
  0xFFFFFFFFFFFFFFFFFFFFFFFFFFFFFFFEBAAEDCE6AF48A03BBFD25E8CD0364141.
Definition Gx : Z :=
  0x79BE667EF9DCBBAC55A06295CE870B07029BFCDB2DCE28D959F2815B16F81798.
Definition Gy : Z :=
  0x483ADA7726A3C4655DA4FBFC0E1108A8FD17B448A68554199C47D08FFB10D4B8.

(** A point: [None] is the point at infinity. *)
Definition point := option (Z * Z).

(** Extended Euclid on [(r0, r1)], keeping [s0 * a = r0] and
    [s1 * a = r1] modulo [P]. *)
Fixpoint egcd (fuel : nat) (r0 r1 s0 s1 : Z) : Z :=
  match fuel with
  | O => s0
  | S fuel' =>
      if r1 =? 0 then s0
      else let q := r0 / r1 in
           egcd fuel' r1 (r0 - q * r1) s1 (s0 - q * s1)
  end.

(** The inverse in the field. *)
Definition inv (a : Z) : Z := (egcd 600 P (a mod P) 0 1) mod P.

Definition add (p q : point) : point :=
  match p, q with
  | None, _ => q
  | _, None => p
  | Some (x1, y1), Some (x2, y2) =>
      if (x1 =? x2) && ((y1 + y2) mod P =? 0) then None
      else
        let l := if x1 =? x2
                 then (3 * x1 * x1 * inv (2 * y1)) mod P
                 else ((y2 - y1) * inv (x2 - x1)) mod P in
        let x3 := (l * l - x1 - x2) mod P in
        Some (x3, (l * (x1 - x3) - y1) mod P)
  end.

Fixpoint mul (k : positive) (p : point) : point :=
  match k with
  | xH => p
  | xO k' => let h := mul k' p in add h h
  | xI k' => let h := mul k' p in add (add h h) p
  end.

Definition ScalarBaseMult (k : Z) : point :=
  match k with
  | Zpos k' => mul k' (Some (Gx, Gy))
  | _ => None
  end.

Definition on_curve (x y : Z) : bool :=
  (0 <=? x) && (x <? P) && (0 <=? y) && (y <? P)
  && ((y * y) mod P =? (x * x * x + 7) mod P).

End secp256k1.

Module ecdsa.

(** [ecdsa.PrivateKey]: the scalar [D] and the coordinates of the public
    point, on the curve of [crypto.S256]. *)
Record PrivateKey := mkPrivateKey { X : Z; Y : Z; D : Z }.

End ecdsa.

(** ** package bytes *)

Module bytes.

(** [Compare]: lexicographic, -1, 0 or +1. *)
Fixpoint Compare (a b : list byte) : Z :=
  match a, b with
  | [], [] => 0
  | [], _ :: _ => -1
  | _ :: _, [] => 1
  | x :: a', y :: b' =>
      match byte_val x ?= byte_val y with
      | Lt => -1
      | Gt => 1
      | Eq => Compare a' b'
      end
  end.

End bytes.

(** ** The wallet and the world it runs in *)

Definition walletVersion : byte := x00.
Definition compressedPublicKeyPrefix : byte := x02.
Definition addressChecksumLen : Z := 4.

Record Wallet := mkWallet {
  PrivateKey : ecdsa.PrivateKey;
  PublicKey : Go.slice
}.

(** The world of a run: what [rand.Reader] will still supply (one integer
    per read, a failing reader once the list is used up), the wallets
    allocated so far (a pointer is a position in [heap]) and the lines
    printed. *)
Record World := mkWorld {
  rand_Reader : list Z;
  heap : list Wallet;
  stdout : list string
}.

Definition M (A : Type) : Type := World -> Go.result A * World.

Definition ret {A} (a : A) : M A := fun w => (Go.Ok a, w).

Definition bind {A B} (m : M A) (k : A -> M B) : M B :=
  fun w =>
    match m w with
    | (Go.Ok a, w') => k a w'
    | (Go.Panic p, w') => (Go.Panic p, w')
    end.

Notation "x <- m ;; k" := (bind m (fun x => k))
  (at level 61, m at next level, right associativity).
Notation "m ;; k" := (bind m (fun _ => k))
  (at level 61, right associativity).

(** A checked slice or index operation inside a computation. *)
Definition lift {A} (r : Go.result A) : M A := fun w => (r, w).

Definition log_Panic {A} (err : string) : M A :=
  fun w => (Go.Panic (Go.LogPanic err), w).

(** [fmt.Println(label, n)]: one line, the operands separated by a space. *)
Definition Println (label : string) (n : Z) : M unit :=
  fun w =>
    let line := (label ++ " " ++ NilZero.string_of_int (Z.to_int n))%string in
    (Go.Ok tt, mkWorld (rand_Reader w) (heap w) (stdout w ++ [line])).

(** The formatting verbs of package fmt the program uses. *)
Module fmt.

Definition digit_char (d : Z) : ascii := ascii_of_N (48 + Z.to_N d).

(** The decimal digits of a positive number, most significant first, and
    the single digit of zero. *)
Definition decimal (n : Z) : list ascii :=
  if n =? 0 then ["0"%char]
  else rev (map digit_char (big.digits 10 (big.BitLen n) n)).

(** [%d] *)
Definition verb_d (n : Z) : string :=
  string_of_list_ascii
    (if n <? 0 then "-"%char :: decimal (- n) else decimal n).

(** [%v] on a bool *)
Definition verb_v (b : bool) : string :=
  if b then "true"%string else "false"%string.

End fmt.

Definition newline : string := String (ascii_of_byte x0a) EmptyString.

(** [fmt.Println(label, s)] on two strings. *)
Definition Println_s (label s : string) : M unit :=
  fun w =>
    let line := (label ++ " " ++ s)%string in
    (Go.Ok tt, mkWorld (rand_Reader w) (heap w) (stdout w ++ [line])).

(** [fmt.Printf]: the formatted text, as it is (no newline is added). *)
Definition Printf (text : string) : M unit :=
  fun w => (Go.Ok tt, mkWorld (rand_Reader w) (heap w) (stdout w ++ [text])).

(** [&wallet]: the wallet escapes to the heap. *)
Definition new (v : Wallet) : M nat :=
  fun w =>
    (Go.Ok (length (heap w)),
     mkWorld (rand_Reader w) (heap w ++ [v]) (stdout w)).

(** A method with a value receiver called through a pointer: the receiver
    is a copy of the wallet in the heap. *)
Definition invoke {A} (p : nat) (method : Wallet -> M A) : M A :=
  fun w =>
    match nth_error (heap w) p with
    | Some v => method v w
    | None => (Go.Panic Go.NilPointerDereference, w)
    end.

(** Modelled from the spec: [ecdsa.GenerateKey] is missing from the
    sources.  Spec 4.1 and 7: a key pair on the fixed curve from the
    random source, [RandomSourceError] when the source cannot supply
    bytes.  The scalar is the integer read, reduced into [1, N-1]. *)
Definition GenerateKey : M (ecdsa.PrivateKey + string) :=
  fun w =>
    match rand_Reader w with
    | [] => (Go.Ok (inr "RandomSourceError"%string), w)
    | k :: rest =>
        let d := k mod (secp256k1.N - 1) + 1 in
        let '(x, y) := match secp256k1.ScalarBaseMult d with
                       | Some xy => xy
                       | None => (0, 0)
                       end in
        (Go.Ok (inl (ecdsa.mkPrivateKey x y d)),
         mkWorld rest (heap w) (stdout w))
    end.

(** ** The program *)

Section Accounts.

(** [crypto.Keccak256], [sha256.Sum256] and the digest of the
    [ripemd160] hasher. *)
Variables Keccak256 Sum256 RIPEMD160 : list byte -> list byte.

(** The spare capacity [append] leaves when it has to allocate. *)
Variable grow : nat -> nat.

(** The [hash.Hash] of [ripemd160.New()]: the bytes written so far.
    [Write] returns their number and never an error; [Sum(b)] appends
    the digest to [b]. *)
Record Hasher := mkHasher { written : list byte }.

Definition ripemd160_New : Hasher := mkHasher [].

Definition Hasher_Write (h : Hasher) (p : list byte)
  : Hasher * Z * option string :=
  (mkHasher (written h ++ p), Z.of_nat (length p), None).

Definition Hasher_Sum (h : Hasher) (b : list byte) : list byte :=
  b ++ RIPEMD160 (written h).

Definition GetEthAddress (w : Wallet) : M string :=
  let publicHash := Go.make (Keccak256 (Go.elems (PublicKey w))) in
  Println "Eth:" (Go.len publicHash) ;;
  last20 <- lift (Go.slice_from publicHash (Go.len publicHash - 20)) ;;
  let address := hex.EncodeToString (Go.elems last20) in
  ret address.

Definition HashPubKey (pubKey : Go.slice) : M (list byte) :=
  first32 <- lift (Go.slice_to pubKey 32) ;;
  let publicSHA256 :=
    Sum256 (Go.elems (Go.append grow (Go.make [compressedPublicKeyPrefix])
                                (Go.elems first32))) in
  let RIPEMD160Hasher := ripemd160_New in
  let '(RIPEMD160Hasher, t, err) :=
    Hasher_Write RIPEMD160Hasher publicSHA256 in
  match err with
  | Some e => log_Panic e
  | None =>
      Println "publicSHA256" t ;;
      let publicRIPEMD160 := Hasher_Sum RIPEMD160Hasher [] in
      Println "publicRIPEMD160" (Z.of_nat (length publicRIPEMD160)) ;;
      ret publicRIPEMD160
  end.

(** [secondSHA] is an array of 32 bytes; [checksum] returns its first
    [addressChecksumLen] bytes. *)
Definition checksum (payload : list byte) : list byte :=
  let firstSHA := Sum256 payload in
  let secondSHA := Sum256 firstSHA in
  firstn (Z.to_nat addressChecksumLen) secondSHA.

Definition GetBtcAddress (w : Wallet) : M string :=
  pubKeyHash <- HashPubKey (PublicKey w) ;;
  let walletVersionedPayload :=
    Go.append grow (Go.make [walletVersion]) pubKeyHash in
  Println "walletVersionedPayload length" (Go.len walletVersionedPayload) ;;
  let checksum := checksum (Go.elems walletVersionedPayload) in
  let fullPayload := Go.append grow walletVersionedPayload checksum in
  let address := base58.Encode (Go.elems fullPayload) in
  ret address.

Definition newKeyPair : M (ecdsa.PrivateKey * Go.slice) :=
  r <- GenerateKey ;;
  match r with
  | inr err => log_Panic err
  | inl private =>
      let pubKey := Go.append grow (Go.make (big.Bytes (ecdsa.X private)))
                              (big.Bytes (ecdsa.Y private)) in
      ret (private, pubKey)
  end.

Definition NewWallet : M nat :=
  kp <- newKeyPair ;;
  let '(private, public) := kp in
  let wallet := mkWallet private public in
  new wallet.

Definition ValidateAddress (address : string) : M bool :=
  let pubKeyHash := Go.make (base58.Decode address) in
  actualChecksum <-
    lift (Go.slice_from pubKeyHash (Go.len pubKeyHash - addressChecksumLen)) ;;
  version <- lift (Go.index pubKeyHash 0) ;;
  pubKeyHash <-
    lift (Go.reslice pubKeyHash 1 (Go.len pubKeyHash - addressChecksumLen)) ;;
  let targetChecksum :=
    checksum (Go.elems (Go.append grow (Go.make [version])
                                  (Go.elems pubKeyHash))) in
  ret (bytes.Compare (Go.elems actualChecksum) targetChecksum =? 0).

(** The hasher of [sha3.NewLegacyKeccak256()]: [Sum(b)] appends the
    Keccak-256 digest of the bytes written to [b]. *)
Definition sha3_NewLegacyKeccak256 : Hasher := mkHasher [].

Definition Keccak_Sum (h : Hasher) (b : list byte) : list byte :=
  b ++ Keccak256 (written h).

Definition signedMessagePrefix : string :=
  (String (ascii_of_byte x19) "Ethereum Signed Message:" ++ newline)%string.

Definition TextAndHash (data : list byte) : list byte * string :=
  let msg := (signedMessagePrefix
              ++ fmt.verb_d (Z.of_nat (length data))
              ++ string_of_list_byte data)%string in
  let hasher := sha3_NewLegacyKeccak256 in
  let '(hasher, _, _) := Hasher_Write hasher (list_byte_of_string msg) in
  (Keccak_Sum hasher [], msg).


Definition main : M unit :=
  wallet <- NewWallet ;;
  invoke wallet (fun v =>
    Println_s "publicKey:" (hex.EncodeToString (Go.elems (PublicKey v)))) ;;
  invoke wallet (fun v =>
    Println_s "PrivateKey:"
      (hex.EncodeToString (big.Bytes (ecdsa.D (PrivateKey v))))) ;;
  bitcoinAddress <- invoke wallet GetBtcAddress ;;
  ethAddress <- invoke wallet GetEthAddress ;;
  Println_s "ethAddress" ethAddress ;;
  Println_s "比特币地址:" bitcoinAddress ;;
  valid <- ValidateAddress bitcoinAddress ;;
  Printf ("比特币地址是否有效:" ++ fmt.verb_v valid ++ newline ++ "：")%string.

(** What the Bitcoin derivation computes on a key with room for 32
    bytes: the bytes hashed (the prefix and the first 32 bytes of the
    backing array), the public-key hash and the full payload. *)
Definition shaInput (pubKey : Go.slice) : list byte :=
  compressedPublicKeyPrefix
    :: firstn 32 (Go.elems pubKey ++ Go.spare pubKey).

Definition pubKeyHash_of (pubKey : Go.slice) : list byte :=
  RIPEMD160 (Sum256 (shaInput pubKey)).

Definition fullPayload_of (pubKey : Go.slice) : list byte :=
  let versioned := walletVersion :: pubKeyHash_of pubKey in
  versioned ++ checksum versioned.

End Accounts.

(** ** Vocabulary of the properties *)

(** A character of the Base58 alphabet. *)
Definition in_alphabet (c : ascii) : Prop :=
  In c (list_ascii_of_string base58.alphabet).

(** What it would take for [Decode] to surface an invalid character: an
    observation of the slice it returns that holds exactly for the strings
    with a character outside the alphabet. *)
Definition surfaces_invalid_character (failed : list byte -> Prop) : Prop :=
  forall s, failed (base58.Decode s)
            <-> exists c, In c (list_ascii_of_string s) /\ ~ in_alphabet c.

(** A lowercase hexadecimal digit. *)
Definition lower_hex (c : ascii) : Prop :=
  In c (list_ascii_of_string hex.hextable).

(** Two worlds that differ at most in what was printed. *)
Definition same_but_stdout (w w' : World) : Prop :=
  rand_Reader w' = rand_Reader w /\ heap w' = heap w.

(** A point with both coordinates in the field, or the point at
    infinity. *)
Definition in_field (p : secp256k1.point) : Prop :=
  match p with
  | None => True
  | Some (x, y) => 0 <= x < secp256k1.P /\ 0 <= y < secp256k1.P
  end.

(** The world after some lines were printed. *)
Definition printed (w : World) (lines : list string) : World :=
  mkWorld (rand_Reader w) (heap w) (stdout w ++ lines).

(** A stand-in for a hash primitive, for running the program on concrete
    inputs: the first [n] bytes of the zero-padded input, with the input
    length mixed into the first byte. *)
Definition toy_digest (n : nat) (b : list byte) : list byte :=
  firstn n (byte_of_Z (Z.of_nat (length b) mod 256) :: b ++ repeat x00 n).

Definition toy_world : World := mkWorld [152] [] [].

(** The key pair of the scalar 153: the X coordinate is below 2^248. *)
Definition key153 : ecdsa.PrivateKey :=
  ecdsa.mkPrivateKey
    0x00e3ae1974566ca06cc516d47e0fb165a674a3dabcfca15e722f0e3450f45889
    0x2aeabe7e4531510116217f07bf4d07300de97e4874f81f533420a72eeb0bd6a4
    153.

(** A slice of length 0 and capacity 32, as [make([]byte, 0, 32)] gives. *)
Definition empty_cap32 : Go.slice := Go.mkSlice [] (repeat x00 32).

(** The public key [newKeyPair] builds for [key153], when [append] leaves
    no spare capacity. *)
Definition pubKey153 : Go.slice :=
  Go.append (fun _ => O) (Go.make (big.Bytes (ecdsa.X key153)))
            (big.Bytes (ecdsa.Y key153)).

(** Two wallets with the same 64-byte public key and different private
    keys. *)
Definition toy_wallet : Wallet :=
  mkWallet key153 (Go.make (repeat x07 64)).

Definition toy_wallet' : Wallet :=
  mkWallet (ecdsa.mkPrivateKey secp256k1.Gx secp256k1.Gy 1)
           (Go.make (repeat x07 64)).

(** A payload with version byte 0x05 and the checksum of the stand-in
    hash. *)
Definition toy_payload : list byte :=
  let versioned := [x05; x0a; x0b; x0c] in
  versioned ++ firstn 4 (toy_digest 32 (toy_digest 32 versioned)).

(** A wallet whose public key agrees with that of [toy_wallet] on the
    first 32 bytes only. *)
Definition toy_wallet_Y : Wallet :=
  mkWallet key153 (Go.make (repeat x07 32 ++ repeat x01 32)).

(** A world whose random source is used up. *)
Definition empty_world : World := mkWorld [] [] [].

Definition toy_address : string := base58.Encode toy_payload.

(** The key pair of the scalar 1, the base point, and the world in which
    the generator draws it. *)
Definition key_G : ecdsa.PrivateKey :=
  ecdsa.mkPrivateKey secp256k1.Gx secp256k1.Gy 1.

Definition pubKey_G : Go.slice :=
  Go.append (fun _ => O) (Go.make (big.Bytes secp256k1.Gx))
            (big.Bytes secp256k1.Gy).

Definition world_G : World := mkWorld [0] [] [].

(** * Properties *)

(** ** Bytes and numbers *)

Lemma byte_val_range (b : byte) : 0 <= byte_val b < 256.
Proof.
  unfold byte_val. pose proof (Byte.to_N_bounded b). lia.
Qed.

Lemma byte_of_val (b : byte) : byte_of_Z (byte_val b) = b.
Proof.
  unfold byte_of_Z, byte_val. rewrite N2Z.id, Byte.of_to_N. reflexivity.
Qed.

Lemma byte_val_zero (b : byte) : byte_val b = 0 -> b = x00.
Proof.
  intros H. rewrite <- (byte_of_val b), H. reflexivity.
Qed.

Section Digits.

Variable base : Z.
Hypothesis base_ge_2 : 2 <= base.

Lemma digits_zero fuel x : x <= 0 -> big.digits base fuel x = [].
Proof.
  intros Hx. destruct fuel as [|fuel]; simpl; [reflexivity|].
  destruct (Z.ltb_spec 0 x); [lia | reflexivity].
Qed.

Lemma eval_nonneg ds : big.normal base ds -> 0 <= big.eval base ds.
Proof.
  induction ds as [|d ds IH]; simpl; [lia|].
  intros (Hd & Hn & _). specialize (IH Hn). nia.
Qed.

Lemma eval_pos d ds : big.normal base (d :: ds) -> 0 < big.eval base (d :: ds).
Proof.
  revert d. induction ds as [|e ds IH]; intros d (Hd & Hn & Hlast).
  - simpl. specialize (Hlast eq_refl). lia.
  - specialize (IH e Hn). cbn [big.eval] in *. nia.
Qed.

(** With fuel for every bit of [x], the digits are in normal form and
    their value is [x]. *)
Lemma digits_spec fuel x :
  0 <= x < 2 ^ Z.of_nat fuel ->
  big.normal base (big.digits base fuel x)
  /\ big.eval base (big.digits base fuel x) = x.
Proof.
  revert x. induction fuel as [|fuel IH]; intros x Hx.
  - simpl in *. split; [exact I | lia].
  - cbn [big.digits]. destruct (Z.ltb_spec 0 x) as [Hpos|Hle].
    2:{ simpl. split; [exact I | lia]. }
    assert (Hq : 0 <= x / base < 2 ^ Z.of_nat fuel).
    { split; [apply Z.div_pos; lia|].
      apply Z.div_lt_upper_bound; [lia|].
      rewrite Nat2Z.inj_succ, Z.pow_succ_r in Hx by lia. nia. }
    destruct (IH _ Hq) as [Hn He].
    pose proof (Z.mod_pos_bound x base ltac:(lia)) as Hm.
    pose proof (Z.div_mod x base ltac:(lia)) as Hdm.
    split.
    + cbn [big.normal]. repeat split; try lia; [exact Hn|].
      intros Hnil. rewrite Hnil in He. simpl in He. lia.
    + cbn [big.eval]. rewrite He. lia.
Qed.

(** A digit list in normal form is the list of digits of its value. *)
Lemma digits_eval fuel ds :
  big.normal base ds ->
  big.eval base ds < 2 ^ Z.of_nat fuel ->
  big.digits base fuel (big.eval base ds) = ds.
Proof.
  revert fuel. induction ds as [|d ds IH]; intros fuel Hn Hlt.
  - simpl. apply digits_zero. lia.
  - pose proof (eval_pos _ _ Hn) as Hpos.
    destruct Hn as (Hd & Hn & Hlast).
    pose proof (eval_nonneg _ Hn) as Hnn.
    cbn [big.eval] in *.
    destruct fuel as [|fuel]; [simpl in Hlt; lia|].
    cbn [big.digits]. destruct (Z.ltb_spec 0 (d + base * big.eval base ds)); [|lia].
    assert (Hmod : (d + base * big.eval base ds) mod base = d).
    { replace (d + base * big.eval base ds) with (d + big.eval base ds * base)
        by lia.
      rewrite Z.mod_add by lia. apply Z.mod_small; lia. }
    assert (Hdiv : (d + base * big.eval base ds) / base = big.eval base ds).
    { replace (d + base * big.eval base ds) with (d + big.eval base ds * base)
        by lia.
      rewrite Z.div_add, (Z.div_small d base) by lia. lia. }
    rewrite Hmod, Hdiv. f_equal. apply IH; [exact Hn|].
    rewrite Nat2Z.inj_succ, Z.pow_succ_r in Hlt by lia. nia.
Qed.

Lemma normal_snoc ds d :
  Forall (fun e => 0 <= e < base) ds -> 0 < d < base ->
  big.normal base (ds ++ [d]).
Proof.
  intros Hall Hd. induction Hall as [|e ds He Hall IH]; simpl.
  - repeat split; lia.
  - repeat split; try lia; [exact IH|].
    intros Hnil. destruct ds; discriminate.
Qed.

Lemma normal_inv ds :
  big.normal base ds ->
  ds = [] \/ exists ds' d, ds = ds' ++ [d] /\ 0 < d < base
                           /\ Forall (fun e => 0 <= e < base) ds'.
Proof.
  induction ds as [|e ds IH]; [now left|].
  intros (He & Hn & Hlast). right.
  destruct (IH Hn) as [->|(ds' & d & -> & Hd & Hall)].
  - exists [], e. specialize (Hlast eq_refl). repeat split; try lia. constructor.
  - exists (e :: ds'), d. repeat split; try lia. constructor; assumption.
Qed.

End Digits.

(** ** math/big *)

Example Bytes_vector :
  big.Bytes 0x01ff = [x01; xff] /\ big.Bytes 0 = []
  /\ big.SetBytes [x00; x01; xff] = 0x01ff.
Proof. repeat split; reflexivity. Qed.

Lemma BitLen_spec x : 0 <= x -> x < 2 ^ Z.of_nat (big.BitLen x).
Proof.
  intros Hx. unfold big.BitLen. destruct (Z.ltb_spec 0 x) as [Hpos|Hle].
  - pose proof (Z.log2_spec x Hpos) as [_ Hlt].
    pose proof (Z.log2_nonneg x).
    rewrite Nat2Z.inj_succ, Z2Nat.id by lia. exact Hlt.
  - simpl. lia.
Qed.

Lemma SetBytes_eval_from buf t :
  fold_left (fun acc v => acc * 256 + byte_val v) buf (big.eval 256 t)
  = big.eval 256 (rev (map byte_val buf) ++ t).
Proof.
  revert t. induction buf as [|v buf IH]; intros t; [reflexivity|].
  cbn [fold_left map rev]. rewrite <- app_assoc. cbn [app].
  rewrite <- IH. f_equal. cbn [big.eval]. lia.
Qed.

Lemma SetBytes_eval buf :
  big.SetBytes buf = big.eval 256 (rev (map byte_val buf)).
Proof.
  unfold big.SetBytes. change 0 with (big.eval 256 []) at 1.
  rewrite SetBytes_eval_from, app_nil_r. reflexivity.
Qed.

Lemma SetBytes_zeros n buf :
  big.SetBytes (repeat x00 n ++ buf) = big.SetBytes buf.
Proof.
  unfold big.SetBytes. induction n as [|n IH]; [reflexivity|].
  cbn [repeat app fold_left]. exact IH.
Qed.

(** [Bytes] undoes [SetBytes] on a byte string without leading zero. *)
Lemma Bytes_SetBytes buf :
  hd_error buf <> Some x00 -> big.Bytes (big.SetBytes buf) = buf.
Proof.
  intros Hhd. unfold big.Bytes. rewrite SetBytes_eval.
  assert (Hn : big.normal 256 (rev (map byte_val buf))).
  { destruct buf as [|c buf]; [exact I|].
    cbn [map rev]. apply normal_snoc.
    - apply Forall_rev, Forall_map, Forall_forall. intros b _.
      apply byte_val_range.
    - pose proof (byte_val_range c).
      assert (byte_val c <> 0).
      { intros H0. apply Hhd. simpl. f_equal. now apply byte_val_zero. }
      lia. }
  rewrite digits_eval; [| lia | exact Hn |].
  - rewrite map_rev, rev_involutive, map_map.
    rewrite <- (map_id buf) at 2. apply map_ext. intros b. apply byte_of_val.
  - apply BitLen_spec. apply eval_nonneg with (base := 256); [lia | exact Hn].
Qed.

Lemma Bytes_nonempty x : 0 < x -> big.Bytes x <> [].
Proof.
  intros Hx. unfold big.Bytes, big.BitLen.
  destruct (Z.ltb_spec 0 x) as [_|Hle]; [|lia]. cbn [big.digits].
  destruct (Z.ltb_spec 0 x) as [_|Hle]; [|lia]. cbn [map rev].
  intros Hnil. apply app_eq_nil in Hnil. destruct Hnil; discriminate.
Qed.

(** ** The Base58 codec *)

(** The encoding of the ASCII bytes of "Hello World!", and two encodings
    with leading zero bytes. *)
Example Encode_vectors :
  base58.Encode [x48; x65; x6c; x6c; x6f; x20; x57; x6f; x72; x6c; x64; x21]
  = "2NEpo7TZRRrLZSi2U"%string
  /\ base58.Encode [x00; x00; x01] = "112"%string
  /\ base58.Encode [x00; x00] = "11"%string
  /\ base58.Decode "112" = [x00; x00; x01].
Proof. repeat split; reflexivity. Qed.

Lemma numZeros_split b :
  b = repeat x00 (base58.numZeros b) ++ skipn (base58.numZeros b) b
  /\ hd_error (skipn (base58.numZeros b) b) <> Some x00.
Proof.
  induction b as [|c b [IH1 IH2]]; simpl.
  - split; [reflexivity | discriminate].
  - destruct (Byte.eqb c x00) eqn:E.
    + apply Byte.byte_dec_bl in E. subst c. simpl. split; [now f_equal | exact IH2].
    + simpl. split; [reflexivity|]. intros H. injection H as ->. discriminate.
Qed.

Lemma index_from_bound c l i :
  0 <= i -> i + Z.of_nat (length l) <= 255 ->
  (In c l -> i <= base58.index_from c l i < i + Z.of_nat (length l))
  /\ (~ In c l -> base58.index_from c l i = 255).
Proof.
  revert i. induction l as [|a l IH]; intros i Hi Hlen.
  - simpl. split; [intros [] | reflexivity].
  - cbn [base58.index_from length In] in *. rewrite Nat2Z.inj_succ in *.
    destruct (Ascii.eqb_spec a c) as [->|Hne].
    + split; [lia | intros H; exfalso; apply H; now left].
    + destruct (IH (i + 1) ltac:(lia) ltac:(lia)) as [IHin IHout]. split.
      * intros [H|H]; [contradiction|]. specialize (IHin H). lia.
      * intros H. apply IHout. intros Hin. apply H. now right.
Qed.

Lemma alphabet_length :
  length (list_ascii_of_string base58.alphabet) = 58%nat.
Proof. reflexivity. Qed.

(** The table gives 255 exactly outside the alphabet, and a digit below 58
    inside. *)
Lemma b58_255 c : base58.b58 c = 255 <-> ~ in_alphabet c.
Proof.
  unfold base58.b58, in_alphabet.
  pose proof (index_from_bound c (list_ascii_of_string base58.alphabet) 0
                ltac:(lia) ltac:(rewrite alphabet_length; lia)) as [Hin Hout].
  split; [|exact Hout].
  intros H Hc. specialize (Hin Hc). rewrite alphabet_length in Hin. lia.
Qed.

Lemma b58_range c : in_alphabet c -> 0 <= base58.b58 c < 58.
Proof.
  unfold base58.b58, in_alphabet. intros Hc.
  pose proof (index_from_bound c (list_ascii_of_string base58.alphabet) 0
                ltac:(lia) ltac:(rewrite alphabet_length; lia)) as [Hin _].
  specialize (Hin Hc). rewrite alphabet_length in Hin. lia.
Qed.

Lemma b58_alphabet_at d : 0 <= d < 58 -> base58.b58 (base58.alphabet_at d) = d.
Proof.
  intros Hd.
  assert (Hall : forallb (fun n => base58.b58 (base58.alphabet_at (Z.of_nat n))
                                   =? Z.of_nat n) (seq 0 58) = true)
    by (vm_compute; reflexivity).
  rewrite forallb_forall in Hall.
  specialize (Hall (Z.to_nat d)). rewrite Z2Nat.id in Hall by lia.
  apply Z.eqb_eq, Hall, in_seq. lia.
Qed.

Lemma alphabet_at_in d : 0 <= d < 58 -> in_alphabet (base58.alphabet_at d).
Proof.
  intros Hd. apply nth_In. rewrite alphabet_length. lia.
Qed.

Lemma alphabet_at_not_one d :
  0 < d < 58 -> Ascii.eqb (base58.alphabet_at d) base58.alphabetIdx0 = false.
Proof.
  intros Hd. destruct (Ascii.eqb_spec (base58.alphabet_at d) base58.alphabetIdx0)
    as [E|]; [|reflexivity].
  pose proof (b58_alphabet_at d ltac:(lia)) as H. rewrite E in H.
  vm_compute in H. lia.
Qed.

Lemma normal_Forall base ds :
  big.normal base ds -> Forall (fun d => 0 <= d < base) ds.
Proof.
  induction ds as [|d ds IH]; intros Hn; constructor.
  - apply Hn.
  - apply IH, Hn.
Qed.

(** The value of a string of digits of the alphabet. *)
Lemma value_digits ds t :
  Forall (fun d => 0 <= d < 58) ds ->
  base58.value (map base58.alphabet_at ds) (big.eval 58 t)
  = Some (big.eval 58 (rev ds ++ t)).
Proof.
  intros Hall. revert t. induction Hall as [|d ds Hd Hall IH]; intros t.
  - reflexivity.
  - cbn [map base58.value rev]. rewrite b58_alphabet_at by exact Hd.
    destruct (Z.eqb_spec d 255); [lia|].
    rewrite <- app_assoc. cbn [app]. rewrite <- IH. f_equal.
    cbn [big.eval]. lia.
Qed.

Lemma value_ones n s :
  base58.value (repeat base58.alphabetIdx0 n ++ s) 0 = base58.value s 0.
Proof.
  induction n as [|n IH]; [reflexivity|]. exact IH.
Qed.

Lemma numOnes_ones n s :
  base58.numOnes (repeat base58.alphabetIdx0 n ++ s)
  = (n + base58.numOnes s)%nat.
Proof.
  induction n as [|n IH]; [reflexivity|].
  cbn [repeat app base58.numOnes]. rewrite Ascii.eqb_refl, IH. reflexivity.
Qed.

(** The characters of an encoding: the '1's of the leading zero bytes,
    then the digits of the number, most significant first. *)
Lemma Encode_chars b :
  list_ascii_of_string (base58.Encode b)
  = repeat base58.alphabetIdx0 (base58.numZeros b)
    ++ map base58.alphabet_at
         (rev (big.digits 58 (big.BitLen (big.SetBytes b)) (big.SetBytes b))).
Proof.
  unfold base58.Encode. cbv zeta.
  rewrite list_ascii_of_string_of_list_ascii, rev_app_distr, rev_repeat, map_rev.
  reflexivity.
Qed.

Lemma SetBytes_nonneg b : 0 <= big.SetBytes b.
Proof.
  assert (H : forall a, 0 <= a ->
              0 <= fold_left (fun acc v => acc * 256 + byte_val v) b a).
  { induction b as [|c b IH]; intros a Ha; [exact Ha|].
    cbn [fold_left]. apply IH. pose proof (byte_val_range c). lia. }
  apply H. lia.
Qed.

Lemma numOnes_digits ds :
  big.normal 58 ds -> base58.numOnes (map base58.alphabet_at (rev ds)) = O.
Proof.
  intros Hn. destruct (normal_inv _ _ Hn) as [->|(ds' & d & -> & Hd & _)].
  - reflexivity.
  - rewrite rev_app_distr. cbn [rev app map base58.numOnes].
    rewrite alphabet_at_not_one by exact Hd. reflexivity.
Qed.

(** Decoding an encoding gives the bytes back, without error. *)
Lemma base58Decode_Encode b :
  base58.base58Decode (base58.Encode b) = base58.Decoded b.
Proof.
  unfold base58.base58Decode. rewrite Encode_chars.
  set (x := big.SetBytes b).
  destruct (digits_spec 58 ltac:(lia) (big.BitLen x) x) as [Hn He].
  { split; [apply SetBytes_nonneg | apply BitLen_spec, SetBytes_nonneg]. }
  set (ds := big.digits 58 (big.BitLen x) x) in *.
  rewrite value_ones, numOnes_ones, numOnes_digits by exact Hn.
  change 0 with (big.eval 58 []) at 1.
  rewrite value_digits by (apply Forall_rev, normal_Forall, Hn).
  rewrite rev_involutive, app_nil_r, He, Nat.add_0_r.
  destruct (numZeros_split b) as [Hsplit Hhd].
  assert (Hx : x = big.SetBytes (skipn (base58.numZeros b) b)).
  { unfold x. rewrite Hsplit at 1. apply SetBytes_zeros. }
  rewrite Hx, Bytes_SetBytes by exact Hhd. f_equal. symmetry. exact Hsplit.
Qed.

Lemma Decode_Encode b : base58.Decode (base58.Encode b) = b.
Proof.
  unfold base58.Decode. rewrite base58Decode_Encode. reflexivity.
Qed.

Lemma numOnes_Encode b :
  base58.numOnes (list_ascii_of_string (base58.Encode b)) = base58.numZeros b.
Proof.
  rewrite Encode_chars, numOnes_ones.
  set (x := big.SetBytes b).
  destruct (digits_spec 58 ltac:(lia) (big.BitLen x) x) as [Hn _].
  { split; [apply SetBytes_nonneg | apply BitLen_spec, SetBytes_nonneg]. }
  rewrite numOnes_digits by exact Hn. lia.
Qed.

Lemma in_alphabet_dec c : {in_alphabet c} + {~ in_alphabet c}.
Proof. apply in_dec, ascii_dec. Qed.

Lemma b58_nonneg c : 0 <= base58.b58 c.
Proof.
  destruct (in_alphabet_dec c) as [Hc|Hc].
  - apply b58_range in Hc. lia.
  - apply b58_255 in Hc. lia.
Qed.

Lemma b58_zero c : base58.b58 c = 0 -> c = base58.alphabetIdx0.
Proof.
  unfold base58.b58.
  change (list_ascii_of_string base58.alphabet)
    with (base58.alphabetIdx0 :: tl (list_ascii_of_string base58.alphabet)).
  cbn [base58.index_from].
  destruct (Ascii.eqb_spec base58.alphabetIdx0 c) as [E|_]; [now intros _|].
  set (rest := tl (list_ascii_of_string base58.alphabet)).
  pose proof (index_from_bound c rest (0 + 1) ltac:(lia)
                ltac:(vm_compute; discriminate)) as [Hin Hout].
  destruct (in_dec ascii_dec c rest) as [H|H].
  - specialize (Hin H). lia.
  - rewrite (Hout H). discriminate.
Qed.

(** [value] fails exactly on a character outside the alphabet. *)
Lemma value_None s acc :
  base58.value s acc = None <-> exists c, In c s /\ ~ in_alphabet c.
Proof.
  revert acc. induction s as [|c s IH]; intros acc; cbn [base58.value].
  - split; [discriminate | intros (c & [] & _)].
  - destruct (Z.eqb_spec (base58.b58 c) 255) as [E|E].
    + split; [|reflexivity]. intros _. exists c. split; [now left|].
      now apply b58_255.
    + rewrite IH. split; intros (c' & Hin & Hout).
      * exists c'. split; [now right | exact Hout].
      * destruct Hin as [<-|Hin]; [|now exists c'].
        apply b58_255 in Hout. contradiction.
Qed.

Lemma value_pos s acc r :
  base58.value s acc = Some r -> 0 < acc -> 0 < r.
Proof.
  revert acc. induction s as [|c s IH]; intros acc; cbn [base58.value].
  - intros [= <-]. trivial.
  - destruct (Z.eqb_spec (base58.b58 c) 255); [discriminate|].
    intros H Hacc. apply (IH _ H). pose proof (b58_nonneg c). lia.
Qed.

(** The spec's decoder fails exactly when a character is outside the
    alphabet. *)
Lemma base58Decode_error s :
  base58.base58Decode s = base58.InvalidCharacterError
  <-> exists c, In c (list_ascii_of_string s) /\ ~ in_alphabet c.
Proof.
  unfold base58.base58Decode. rewrite <- (value_None _ 0).
  destruct (base58.value (list_ascii_of_string s) 0);
    split; intros H; (reflexivity || discriminate).
Qed.

(** [Decode] gives the empty slice exactly for the empty string and for a
    string with a character outside the alphabet. *)
Lemma Decode_nil s :
  base58.Decode s = []
  <-> s = EmptyString
      \/ exists c, In c (list_ascii_of_string s) /\ ~ in_alphabet c.
Proof.
  split.
  - intros Hnil. unfold base58.Decode in Hnil.
    destruct (base58.base58Decode s) as [val|] eqn:E.
    2:{ right. now apply base58Decode_error. }
    left. subst val. unfold base58.base58Decode in E.
    destruct s as [|c s]; [reflexivity|]. exfalso.
    cbn [list_ascii_of_string] in E.
    destruct (base58.value (c :: list_ascii_of_string s) 0) as [answer|] eqn:V;
      [|discriminate].
    injection E as E. apply app_eq_nil in E. destruct E as [Hones Hbytes].
    cbn [base58.numOnes base58.value] in *.
    destruct (Ascii.eqb_spec c base58.alphabetIdx0) as [|Hc]; [discriminate|].
    destruct (Z.eqb_spec (base58.b58 c) 255); [discriminate|].
    assert (Hpos : 0 < base58.b58 c).
    { pose proof (b58_nonneg c).
      assert (base58.b58 c <> 0) by (intros H0; apply Hc, b58_zero, H0). lia. }
    revert Hbytes. apply Bytes_nonempty. apply (value_pos _ _ _ V). lia.
  - intros [->|H]; [reflexivity|].
    apply base58Decode_error in H. unfold base58.Decode. rewrite H. reflexivity.
Qed.

(** ** encoding/hex *)

Example EncodeToString_vector :
  hex.EncodeToString [x00; xff; xa7; x1b] = "00ffa71b"%string.
Proof. reflexivity. Qed.

Lemma length_string_of_list_ascii l :
  String.length (string_of_list_ascii l) = length l.
Proof.
  induction l as [|c l IH]; simpl; [reflexivity | now f_equal].
Qed.

Lemma nibbles_range (v : byte) :
  (N.shiftr (Byte.to_N v) 4 < 16 /\ N.land (Byte.to_N v) 15 < 16)%N.
Proof.
  destruct v; vm_compute; split; reflexivity.
Qed.

Lemma hexdigit_lower i : (i < 16)%N -> lower_hex (hex.hexdigit i).
Proof.
  intros Hi. apply nth_In. change (length _) with 16%nat. lia.
Qed.

Lemma EncodeToString_length src :
  String.length (hex.EncodeToString src) = (2 * length src)%nat.
Proof.
  unfold hex.EncodeToString. rewrite length_string_of_list_ascii.
  induction src as [|v src IH]; [reflexivity|].
  cbn [flat_map app length]. rewrite IH. lia.
Qed.

Lemma EncodeToString_lower src :
  Forall lower_hex (list_ascii_of_string (hex.EncodeToString src)).
Proof.
  unfold hex.EncodeToString. rewrite list_ascii_of_string_of_list_ascii.
  induction src as [|v src IH]; [constructor|].
  cbn [flat_map app]. destruct (nibbles_range v) as [Hhi Hlo].
  constructor; [now apply hexdigit_lower|].
  constructor; [now apply hexdigit_lower | exact IH].
Qed.

(** ** Slices *)

Lemma reslice_Ok s lo hi :
  0 <= lo <= hi -> hi <= Go.cap s ->
  Go.reslice s lo hi
  = Go.Ok (Go.mkSlice
             (firstn (Z.to_nat (hi - lo))
                     (skipn (Z.to_nat lo) (Go.elems s ++ Go.spare s)))
             (skipn (Z.to_nat hi) (Go.elems s ++ Go.spare s))).
Proof.
  intros Hlo Hhi. unfold Go.reslice.
  destruct (Z.leb_spec 0 lo); [|lia].
  destruct (Z.leb_spec lo hi); [|lia].
  destruct (Z.leb_spec hi (Go.cap s)); [|lia]. reflexivity.
Qed.

Lemma reslice_Panic s lo hi :
  lo < 0 \/ hi < lo \/ Go.cap s < hi ->
  Go.reslice s lo hi = Go.Panic (Go.SliceBoundsOutOfRange lo hi (Go.cap s)).
Proof.
  intros H. unfold Go.reslice.
  destruct (Z.leb_spec 0 lo); [|reflexivity].
  destruct (Z.leb_spec lo hi); [|reflexivity].
  destruct (Z.leb_spec hi (Go.cap s)); [lia|reflexivity].
Qed.

Lemma len_le_cap s : Go.len s <= Go.cap s.
Proof. unfold Go.len, Go.cap. lia. Qed.

Lemma elems_append grow s xs :
  Go.elems (Go.append grow s xs) = Go.elems s ++ xs.
Proof.
  unfold Go.append. destruct (_ <=? _)%nat; reflexivity.
Qed.

Lemma Compare_eq a b : bytes.Compare a b = 0 <-> a = b.
Proof.
  revert b. induction a as [|x a IH]; intros [|y b]; cbn [bytes.Compare];
    try (split; intros H; (reflexivity || discriminate)).
  destruct (Z.compare_spec (byte_val x) (byte_val y)) as [E|E|E].
  - rewrite IH. split.
    + intros ->. f_equal. rewrite <- (byte_of_val x), E. apply byte_of_val.
    + intros [= _ ->]. reflexivity.
  - split; [discriminate|]. intros [= -> _]. lia.
  - split; [discriminate|]. intros [= -> _]. lia.
Qed.

(** ** Running a computation *)

Lemma bind_Ok {A B} (m : M A) (k : A -> M B) w a w' :
  m w = (Go.Ok a, w') -> bind m k w = k a w'.
Proof. intros H. unfold bind. rewrite H. reflexivity. Qed.

Lemma bind_Panic {A B} (m : M A) (k : A -> M B) w p w' :
  m w = (Go.Panic p, w') -> bind m k w = (Go.Panic p, w').
Proof. intros H. unfold bind. rewrite H. reflexivity. Qed.

Lemma same_but_stdout_refl w : same_but_stdout w w.
Proof. split; reflexivity. Qed.

Lemma same_but_stdout_trans w1 w2 w3 :
  same_but_stdout w1 w2 -> same_but_stdout w2 w3 -> same_but_stdout w1 w3.
Proof. intros [H1 H2] [H3 H4]. split; congruence. Qed.

Lemma Println_run label n w :
  exists w', Println label n w = (Go.Ok tt, w') /\ same_but_stdout w w'.
Proof.
  eexists. split; [reflexivity|]. split; reflexivity.
Qed.

Lemma bind_lift_Ok {A B} (a : A) (k : A -> M B) w :
  bind (lift (Go.Ok a)) k w = k a w.
Proof. reflexivity. Qed.

Lemma bind_lift_Panic {A B} p (k : A -> M B) w :
  bind (lift (Go.Panic p)) k w = (Go.Panic p, w).
Proof. reflexivity. Qed.

Ltac run_pure :=
  repeat (rewrite bind_lift_Ok; cbv beta);
  rewrite ?bind_lift_Panic;
  cbv beta iota delta [ret].

Ltac run_Println :=
  match goal with
  | |- context [bind (Println ?l ?n) ?k ?w] =>
      let w' := fresh "w" in
      let E := fresh "E" in
      let Hs := fresh "Hs" in
      destruct (Println_run l n w) as (w' & E & Hs);
      rewrite (bind_Ok _ k _ _ _ E)
  end.

(** ** The program *)

Section Program.

Variables Keccak256 Sum256 RIPEMD160 : list byte -> list byte.
Variable grow : nat -> nat.

Hypothesis Keccak256_length : forall b, length (Keccak256 b) = 32%nat.
Hypothesis Sum256_length : forall b, length (Sum256 b) = 32%nat.
Hypothesis RIPEMD160_length : forall b, length (RIPEMD160 b) = 20%nat.

Lemma HashPubKey_run pubKey w :
  32 <= Go.cap pubKey ->
  exists w', HashPubKey Sum256 RIPEMD160 grow pubKey w
             = (Go.Ok (pubKeyHash_of Sum256 RIPEMD160 pubKey), w')
             /\ same_but_stdout w w'.
Proof.
  intros Hcap. unfold HashPubKey, Go.slice_to.
  rewrite reslice_Ok by lia. run_pure.
  rewrite elems_append. cbv beta iota delta [Hasher_Write].
  run_Println. run_Println. run_pure.
  eexists. split; [reflexivity|].
  eapply same_but_stdout_trans; eassumption.
Qed.

Lemma HashPubKey_panic pubKey w :
  Go.cap pubKey < 32 ->
  HashPubKey Sum256 RIPEMD160 grow pubKey w
  = (Go.Panic (Go.SliceBoundsOutOfRange 0 32 (Go.cap pubKey)), w).
Proof.
  intros Hcap. unfold HashPubKey, Go.slice_to.
  rewrite reslice_Panic by lia. reflexivity.
Qed.

Lemma checksum_length payload :
  length (checksum Sum256 payload) = 4%nat.
Proof.
  unfold checksum. rewrite length_firstn, Sum256_length. reflexivity.
Qed.

Lemma GetBtcAddress_run wallet w :
  32 <= Go.cap (PublicKey wallet) ->
  exists w', GetBtcAddress Sum256 RIPEMD160 grow wallet w
             = (Go.Ok (base58.Encode (fullPayload_of Sum256 RIPEMD160 (PublicKey wallet))), w')
             /\ same_but_stdout w w'.
Proof.
  intros Hcap. unfold GetBtcAddress.
  destruct (HashPubKey_run (PublicKey wallet) w Hcap) as (w1 & E1 & Hs1).
  rewrite (bind_Ok _ _ _ _ _ E1). run_Println. run_pure.
  rewrite !elems_append. cbn [Go.elems Go.make app].
  eexists. split; [reflexivity|].
  eapply same_but_stdout_trans; eassumption.
Qed.

Lemma GetBtcAddress_panic wallet w :
  Go.cap (PublicKey wallet) < 32 ->
  GetBtcAddress Sum256 RIPEMD160 grow wallet w
  = (Go.Panic (Go.SliceBoundsOutOfRange 0 32 (Go.cap (PublicKey wallet))), w).
Proof.
  intros Hcap. unfold GetBtcAddress.
  rewrite (bind_Panic _ _ _ _ _ (HashPubKey_panic _ w Hcap)). reflexivity.
Qed.

(** On a payload of at least 5 bytes the validator compares the last 4
    bytes with the checksum of the others. *)
Lemma ValidateAddress_run address w :
  let payload := base58.Decode address in
  let n := length payload in
  (5 <= n)%nat ->
  ValidateAddress Sum256 grow address w
  = (Go.Ok (bytes.Compare (skipn (n - 4) payload)
              (checksum Sum256 (firstn (n - 4) payload)) =? 0), w).
Proof.
  intros payload n Hn. unfold ValidateAddress, Go.slice_from, Go.index.
  fold payload. unfold addressChecksumLen.
  assert (Hlen : Go.len (Go.make payload) = Z.of_nat n) by reflexivity.
  assert (Hcap : Go.cap (Go.make payload) = Z.of_nat n).
  { unfold Go.cap. cbn [Go.make Go.elems Go.spare length]. fold n. lia. }
  rewrite Hlen, reslice_Ok by lia. rewrite bind_lift_Ok. cbv beta.
  rewrite ?Hlen. destruct (Z.leb_spec 0 0); [|lia].
  destruct (Z.ltb_spec 0 (Z.of_nat n)); [|lia].
  cbn [andb]. rewrite bind_lift_Ok. cbv beta.
  rewrite ?reslice_Ok by lia. rewrite bind_lift_Ok. cbv beta iota delta [ret].
  cbn [Go.elems Go.make Go.spare]. rewrite elems_append.
  cbn [Go.elems Go.make app]. rewrite !app_nil_r.
  replace (Z.to_nat (Z.of_nat n - 4)) with (n - 4)%nat by lia.
  replace (Z.to_nat (Z.of_nat n - (Z.of_nat n - 4))) with 4%nat by lia.
  replace (Z.to_nat (Z.of_nat n - 4 - 1)) with (n - 4 - 1)%nat by lia.
  change (Z.to_nat 0) with 0%nat. change (Z.to_nat 1) with 1%nat.
  assert (H1 : firstn 4 (skipn (n - 4) payload) = skipn (n - 4) payload).
  { apply firstn_all2. rewrite length_skipn. fold n. lia. }
  assert (H2 : nth 0 payload x00 :: firstn (n - 4 - 1) (skipn 1 payload)
               = firstn (n - 4) payload).
  { destruct payload as [|v rest]; [simpl in n; lia|].
    remember (n - 4 - 1)%nat as m eqn:Hm.
    replace (n - 4)%nat with (S m) by lia. reflexivity. }
  rewrite H1, H2. reflexivity.
Qed.

(** On a payload of fewer than 5 bytes the validator panics. *)
Lemma ValidateAddress_short address w :
  (length (base58.Decode address) < 5)%nat ->
  exists p, ValidateAddress Sum256 grow address w = (Go.Panic p, w).
Proof.
  set (payload := base58.Decode address). set (n := length payload).
  intros Hn. unfold ValidateAddress, Go.slice_from, Go.index.
  fold payload. unfold addressChecksumLen.
  assert (Hlen : Go.len (Go.make payload) = Z.of_nat n) by reflexivity.
  assert (Hcap : Go.cap (Go.make payload) = Z.of_nat n).
  { unfold Go.cap. cbn [Go.make Go.elems Go.spare length]. fold n. lia. }
  rewrite Hlen.
  destruct (Nat.eq_dec n 4) as [E|E].
  - rewrite reslice_Ok by lia. rewrite bind_lift_Ok. cbv beta.
    rewrite ?Hlen. destruct (Z.leb_spec 0 0); [|lia].
    destruct (Z.ltb_spec 0 (Z.of_nat n)); [|lia].
    cbn [andb]. rewrite bind_lift_Ok. cbv beta.
    rewrite ?reslice_Panic by lia. rewrite bind_lift_Panic.
    eexists. reflexivity.
  - rewrite reslice_Panic by lia. rewrite bind_lift_Panic.
    eexists. reflexivity.
Qed.

Lemma GetEthAddress_run wallet w :
  let publicHash := Keccak256 (Go.elems (PublicKey wallet)) in
  exists w', GetEthAddress Keccak256 wallet w
             = (Go.Ok (hex.EncodeToString
                         (skipn (length publicHash - 20) publicHash)), w')
             /\ same_but_stdout w w'.
Proof.
  intros publicHash. unfold GetEthAddress, Go.slice_from. fold publicHash.
  run_Println.
  assert (Hlen : Go.len (Go.make publicHash) = 32).
  { unfold Go.len. cbn [Go.make Go.elems]. unfold publicHash.
    rewrite Keccak256_length. reflexivity. }
  assert (Hcap : Go.cap (Go.make publicHash) = 32).
  { unfold Go.cap. cbn [Go.make Go.elems Go.spare length]. unfold publicHash.
    rewrite Keccak256_length. reflexivity. }
  rewrite Hlen, reslice_Ok by lia. run_pure.
  cbn [Go.elems Go.make Go.spare]. rewrite app_nil_r.
  unfold publicHash at 2. rewrite Keccak256_length.
  change (Z.to_nat (32 - (32 - 20))) with 20%nat.
  change (Z.to_nat (32 - 20)) with 12%nat. change (32 - 20)%nat with 12%nat.
  rewrite firstn_all2 by (rewrite length_skipn; unfold publicHash;
                          rewrite Keccak256_length; lia).
  eexists. split; [reflexivity | exact Hs].
Qed.

Lemma ValidateAddress_invalid_character address w :
  (exists c, In c (list_ascii_of_string address) /\ ~ in_alphabet c) ->
  ValidateAddress Sum256 grow address w
  = (Go.Panic (Go.SliceBoundsOutOfRange (-4) 0 0), w).
Proof.
  intros Hbad. unfold ValidateAddress.
  replace (base58.Decode address) with (@nil byte)
    by (symmetry; apply Decode_nil; now right).
  reflexivity.
Qed.

Lemma firstn_elems_spare n (s : Go.slice) :
  Z.of_nat n <= Go.len s ->
  firstn n (Go.elems s ++ Go.spare s) = firstn n (Go.elems s).
Proof.
  unfold Go.len. intros Hn. rewrite firstn_app.
  replace (n - length (Go.elems s))%nat with O by lia.
  cbn [firstn]. apply app_nil_r.
Qed.

(** The key pair of a successful generation: the public key is the
    bytes of X followed by the bytes of Y, as [big.Int.Bytes] gives
    them. *)
Lemma newKeyPair_run w private w1 :
  GenerateKey w = (Go.Ok (inl private), w1) ->
  exists pubKey,
    newKeyPair grow w = (Go.Ok (private, pubKey), w1)
    /\ Go.elems pubKey
       = big.Bytes (ecdsa.X private) ++ big.Bytes (ecdsa.Y private).
Proof.
  intros E. unfold newKeyPair. rewrite (bind_Ok _ _ _ _ _ E).
  eexists. split; [reflexivity|]. apply elems_append.
Qed.

(** [NewWallet] puts the generated key pair in the heap, and a method
    called through the pointer it returns runs on that wallet, as in
    [main]. *)
Lemma NewWallet_run w private pubKey w1 :
  newKeyPair grow w = (Go.Ok (private, pubKey), w1) ->
  NewWallet grow w
  = (Go.Ok (length (heap w1)),
     mkWorld (rand_Reader w1) (heap w1 ++ [mkWallet private pubKey])
             (stdout w1)).
Proof.
  intros E. unfold NewWallet. rewrite (bind_Ok _ _ _ _ _ E). reflexivity.
Qed.

Lemma invoke_new {A} (method : Wallet -> M A) wallet w :
  let w' := mkWorld (rand_Reader w) (heap w ++ [wallet]) (stdout w) in
  invoke (length (heap w)) method w' = method wallet w'.
Proof.
  intros w'. unfold invoke, w'. cbn [heap].
  rewrite nth_error_app2, Nat.sub_diag by lia. reflexivity.
Qed.

(** C1 (the code departs from the claim). The validator does not fold
    every failure into [false]: on the empty string, on a string with a
    character outside the alphabet and on an address whose payload has
    four bytes it panics with a slice bound out of range. *)
Theorem ValidateAddress_panics_on_malformed w :
  ValidateAddress Sum256 grow "" w
  = (Go.Panic (Go.SliceBoundsOutOfRange (-4) 0 0), w)
  /\ ValidateAddress Sum256 grow "0" w
     = (Go.Panic (Go.SliceBoundsOutOfRange (-4) 0 0), w)
  /\ ValidateAddress Sum256 grow "1111" w
     = (Go.Panic (Go.SliceBoundsOutOfRange 1 0 4), w).
Proof.
  repeat split; reflexivity.
Qed.

(** C2. For a wallet with a 64-byte public key the Bitcoin derivation
    returns, without panic, the Base58 encoding of
    [0x00 :: h ++ first 4 bytes of Sum256 (Sum256 (0x00 :: h))], where
    [h = RIPEMD160 (Sum256 (0x02 :: first 32 bytes of the key))]; the
    versioned payload has 21 bytes and the address decodes to exactly 25
    bytes. *)
Theorem GetBtcAddress_spec wallet w :
  Go.len (PublicKey wallet) = 64 ->
  let pubKeyHash :=
    RIPEMD160 (Sum256 (x02 :: firstn 32 (Go.elems (PublicKey wallet)))) in
  let versioned := x00 :: pubKeyHash in
  let fullPayload := versioned ++ firstn 4 (Sum256 (Sum256 versioned)) in
  exists w',
    GetBtcAddress Sum256 RIPEMD160 grow wallet w
    = (Go.Ok (base58.Encode fullPayload), w')
    /\ length versioned = 21%nat
    /\ length (base58.Decode (base58.Encode fullPayload)) = 25%nat.
Proof.
  intros Hlen pubKeyHash versioned fullPayload.
  pose proof (len_le_cap (PublicKey wallet)) as Hcap.
  destruct (GetBtcAddress_run wallet w ltac:(lia)) as (w' & E & _).
  assert (Hfull : fullPayload_of Sum256 RIPEMD160 (PublicKey wallet)
                  = fullPayload).
  { unfold fullPayload_of, pubKeyHash_of, shaInput, checksum.
    rewrite firstn_elems_spare by (rewrite Hlen; lia). reflexivity. }
  rewrite Hfull in E. exists w'. split; [exact E|].
  assert (Hv : length versioned = 21%nat).
  { unfold versioned, pubKeyHash. cbn [length].
    rewrite RIPEMD160_length. reflexivity. }
  split; [exact Hv|].
  rewrite Decode_Encode. unfold fullPayload.
  rewrite length_app, Hv, length_firstn, Sum256_length. reflexivity.
Qed.

(** An address whose payload ends in the checksum of what precedes it is
    valid, whatever precedes. *)
Lemma ValidateAddress_checksummed versioned w :
  versioned <> [] ->
  ValidateAddress Sum256 grow
    (base58.Encode (versioned ++ checksum Sum256 versioned)) w
  = (Go.Ok true, w).
Proof.
  intros Hne.
  assert (Hv : (1 <= length versioned)%nat)
    by (destruct versioned; [contradiction | simpl; lia]).
  pose proof (ValidateAddress_run
                (base58.Encode (versioned ++ checksum Sum256 versioned)) w)
    as Hrun.
  rewrite Decode_Encode in Hrun. cbv zeta in Hrun.
  rewrite length_app, checksum_length in Hrun.
  replace (length versioned + 4 - 4)%nat with (length versioned) in Hrun by lia.
  rewrite skipn_app, firstn_app, skipn_all, firstn_all, Nat.sub_diag in Hrun.
  cbn [skipn firstn app] in Hrun. rewrite app_nil_r in Hrun.
  rewrite Hrun by lia. f_equal. f_equal. apply Z.eqb_eq, Compare_eq.
  reflexivity.
Qed.

(** C3. A generated key pair whose public key has room for 32 bytes (a
    64-byte key in particular) gives a Bitcoin address, and the validator
    returns [true] on it; more generally the validator returns [true] on
    every address the derivation returns. *)
Theorem ValidateAddress_of_generated w private pubKey w1 :
  newKeyPair grow w = (Go.Ok (private, pubKey), w1) ->
  32 <= Go.cap pubKey ->
  (exists w2,
      (address <- GetBtcAddress Sum256 RIPEMD160 grow
                    (mkWallet private pubKey) ;;
       ValidateAddress Sum256 grow address) w1
      = (Go.Ok true, w2))
  /\ (forall wallet wa address wb wc,
        GetBtcAddress Sum256 RIPEMD160 grow wallet wa
        = (Go.Ok address, wb) ->
        ValidateAddress Sum256 grow address wc = (Go.Ok true, wc)).
Proof.
  intros _ Hcap. split.
  - destruct (GetBtcAddress_run (mkWallet private pubKey) w1 Hcap)
      as (w2 & E & _).
    exists w2. rewrite (bind_Ok _ _ _ _ _ E).
    apply ValidateAddress_checksummed. discriminate.
  - intros wallet wa address wb wc E.
    destruct (Z_lt_le_dec (Go.cap (PublicKey wallet)) 32) as [Hlt|Hge].
    + rewrite (GetBtcAddress_panic wallet wa Hlt) in E. discriminate.
    + destruct (GetBtcAddress_run wallet wa Hge) as (w' & E' & _).
      rewrite E' in E. injection E as <- _.
      apply ValidateAddress_checksummed. discriminate.
Qed.

(** C6. For every public key (a 64-byte one in particular) the Ethereum
    derivation returns, without panic, the lowercase hexadecimal encoding
    of the last 20 bytes of the Keccak-256 digest of the whole key, with
    no prefix byte; the address has exactly 40 characters, all of them
    lowercase hexadecimal digits. *)
Theorem GetEthAddress_spec wallet w :
  let publicHash := Keccak256 (Go.elems (PublicKey wallet)) in
  let address :=
    hex.EncodeToString (skipn (length publicHash - 20) publicHash) in
  exists w',
    GetEthAddress Keccak256 wallet w = (Go.Ok address, w')
    /\ length (skipn (length publicHash - 20) publicHash) = 20%nat
    /\ String.length address = 40%nat
    /\ Forall lower_hex (list_ascii_of_string address).
Proof.
  intros publicHash address.
  destruct (GetEthAddress_run wallet w) as (w' & E & _).
  exists w'. split; [exact E|].
  assert (H20 : length (skipn (length publicHash - 20) publicHash) = 20%nat).
  { rewrite length_skipn. unfold publicHash. rewrite Keccak256_length.
    reflexivity. }
  split; [exact H20|]. split.
  - unfold address. rewrite EncodeToString_length, H20. reflexivity.
  - apply EncodeToString_lower.
Qed.

(** C8. The validator does not look at the version byte: on the Base58
    address of any payload of at least 5 bytes whose last 4 bytes are the
    first 4 bytes of the double SHA-256 of the bytes before them, it
    returns [true]. *)
Theorem ValidateAddress_any_version payload w :
  (5 <= length payload)%nat ->
  skipn (length payload - 4) payload
  = firstn 4 (Sum256 (Sum256 (firstn (length payload - 4) payload))) ->
  ValidateAddress Sum256 grow (base58.Encode payload) w = (Go.Ok true, w).
Proof.
  intros Hlen Hsum.
  rewrite <- (firstn_skipn (length payload - 4) payload) at 1.
  rewrite Hsum. apply (ValidateAddress_checksummed _ w).
  intros Hnil. apply (f_equal (@length byte)) in Hnil.
  rewrite length_firstn in Hnil. simpl in Hnil. lia.
Qed.

(** C9 (as amended). [HashPubKey] needs a key with room for 32 bytes: on
    a slice of length at least 32 it returns the 20-byte RIPEMD-160
    digest of the SHA-256 of 0x02 and the first 32 bytes; on a slice of
    capacity below 32 the re-slice is out of range and it panics; on a
    shorter slice of capacity at least 32 it does not panic and hashes
    the first 32 bytes of the backing array. *)
Theorem HashPubKey_domain pubKey w :
  (32 <= Go.len pubKey ->
   exists w',
     HashPubKey Sum256 RIPEMD160 grow pubKey w
     = (Go.Ok (RIPEMD160 (Sum256 (x02 :: firstn 32 (Go.elems pubKey)))), w')
     /\ length (RIPEMD160 (Sum256 (x02 :: firstn 32 (Go.elems pubKey))))
        = 20%nat)
  /\ (Go.cap pubKey < 32 ->
      HashPubKey Sum256 RIPEMD160 grow pubKey w
      = (Go.Panic (Go.SliceBoundsOutOfRange 0 32 (Go.cap pubKey)), w))
  /\ (32 <= Go.cap pubKey ->
      exists w',
        HashPubKey Sum256 RIPEMD160 grow pubKey w
        = (Go.Ok (pubKeyHash_of Sum256 RIPEMD160 pubKey), w')
        /\ length (pubKeyHash_of Sum256 RIPEMD160 pubKey) = 20%nat).
Proof.
  split; [|split].
  - intros Hlen. pose proof (len_le_cap pubKey) as Hcap.
    destruct (HashPubKey_run pubKey w ltac:(lia)) as (w' & E & _).
    exists w'. split; [|apply RIPEMD160_length].
    rewrite E. unfold pubKeyHash_of, shaInput.
    rewrite firstn_elems_spare by lia. reflexivity.
  - apply HashPubKey_panic.
  - intros Hcap. destruct (HashPubKey_run pubKey w Hcap) as (w' & E & _).
    exists w'. split; [exact E | apply RIPEMD160_length].
Qed.

Lemma GetBtcAddress_same wallet w :
  same_but_stdout w (snd (GetBtcAddress Sum256 RIPEMD160 grow wallet w)).
Proof.
  destruct (Z_lt_le_dec (Go.cap (PublicKey wallet)) 32) as [Hlt|Hge].
  - rewrite (GetBtcAddress_panic wallet w Hlt). apply same_but_stdout_refl.
  - destruct (GetBtcAddress_run wallet w Hge) as (w' & E & Hs).
    rewrite E. exact Hs.
Qed.

Lemma GetEthAddress_same wallet w :
  same_but_stdout w (snd (GetEthAddress Keccak256 wallet w)).
Proof.
  destruct (GetEthAddress_run wallet w) as (w' & E & Hs).
  rewrite E. exact Hs.
Qed.

Lemma invoke_same {A} (method : Wallet -> M A) p w :
  (forall wallet, same_but_stdout w (snd (method wallet w))) ->
  same_but_stdout w (snd (invoke p method w)).
Proof.
  intros H. unfold invoke. destruct (nth_error (heap w) p) as [wallet|].
  - apply H.
  - apply same_but_stdout_refl.
Qed.

(** C10. Both derivations read the public key only: on two wallets with
    equal [PublicKey] fields, whatever their [PrivateKey] fields, each
    returns the same result (and prints the same lines); and a call
    through the pointer to a wallet leaves the heap of wallets, hence the
    wallet, as it was. *)
Theorem addresses_depend_on_PublicKey_only wallet1 wallet2 :
  PublicKey wallet1 = PublicKey wallet2 ->
  (forall w, GetEthAddress Keccak256 wallet1 w
             = GetEthAddress Keccak256 wallet2 w)
  /\ (forall w, GetBtcAddress Sum256 RIPEMD160 grow wallet1 w
                = GetBtcAddress Sum256 RIPEMD160 grow wallet2 w)
  /\ (forall p w,
        heap (snd (invoke p (GetEthAddress Keccak256) w)) = heap w)
  /\ (forall p w,
        heap (snd (invoke p (GetBtcAddress Sum256 RIPEMD160 grow) w))
        = heap w).
Proof.
  intros Hpk. repeat split.
  - intros w. unfold GetEthAddress. rewrite Hpk. reflexivity.
  - intros w. unfold GetBtcAddress. rewrite Hpk. reflexivity.
  - intros p w. apply invoke_same. intros wallet. apply GetEthAddress_same.
  - intros p w. apply invoke_same. intros wallet. apply GetBtcAddress_same.
Qed.

(** C5 (the code departs from the claim). The generator does not pad the
    coordinates: for the scalar 153, a point of the curve whose X
    coordinate has 31 bytes, the public key is the 31 bytes of X followed
    by the 32 bytes of Y, 63 bytes in all. *)
Theorem newKeyPair_unpadded_public_key :
  exists pubKey w',
    newKeyPair grow toy_world = (Go.Ok (key153, pubKey), w')
    /\ secp256k1.on_curve (ecdsa.X key153) (ecdsa.Y key153) = true
    /\ Go.elems pubKey
       = big.Bytes (ecdsa.X key153) ++ big.Bytes (ecdsa.Y key153)
    /\ length (big.Bytes (ecdsa.X key153)) = 31%nat
    /\ length (big.Bytes (ecdsa.Y key153)) = 32%nat
    /\ Go.len pubKey = 63.
Proof.
  assert (E : GenerateKey toy_world
              = (Go.Ok (inl key153), mkWorld [] [] []))
    by (vm_compute; reflexivity).
  destruct (newKeyPair_run toy_world key153 _ E) as (pubKey & Hrun & Helems).
  exists pubKey, (mkWorld [] [] []).
  split; [exact Hrun|]. split; [vm_compute; reflexivity|].
  split; [exact Helems|]. split; [vm_compute; reflexivity|].
  split; [vm_compute; reflexivity|].
  unfold Go.len. rewrite Helems. vm_compute. reflexivity.
Qed.

End Program.

(** ** The codec claims *)

(** C4. For every byte sequence, leading zero bytes included, decoding
    the Base58 encoding gives the sequence back, so its length too; and
    the encoding starts with exactly one '1' per leading zero byte. *)
Theorem base58_roundtrip b :
  base58.Decode (base58.Encode b) = b
  /\ base58.base58Decode (base58.Encode b) = base58.Decoded b
  /\ length (base58.Decode (base58.Encode b)) = length b
  /\ base58.numOnes (list_ascii_of_string (base58.Encode b))
     = base58.numZeros b.
Proof.
  split; [apply Decode_Encode|]. split; [apply base58Decode_Encode|].
  split; [now rewrite Decode_Encode | apply numOnes_Encode].
Qed.

(** C7 (counterexample). The string "0" has a character outside the
    alphabet and the empty string has none, yet [Decode], as
    [ValidateAddress] calls it, returns the same empty slice for both: no
    observation of the result surfaces the invalid character. *)
Lemma Decode_hides_invalid_character :
  (exists c, In c (list_ascii_of_string "0") /\ ~ in_alphabet c)
  /\ (forall c, In c (list_ascii_of_string "") -> in_alphabet c)
  /\ base58.Decode "0" = []
  /\ base58.Decode "0" = base58.Decode ""
  /\ ~ exists failed, surfaces_invalid_character failed.
Proof.
  assert (Hbad : exists c, In c (list_ascii_of_string "0") /\ ~ in_alphabet c).
  { exists "0"%char. split; [now left|]. apply b58_255. reflexivity. }
  split; [exact Hbad|]. split; [intros c []|].
  split; [reflexivity|]. split; [reflexivity|].
  intros (failed & Hf).
  apply (Hf "0"%string) in Hbad. change (base58.Decode "0") with
    (base58.Decode "") in Hbad.
  apply (Hf EmptyString) in Hbad. destruct Hbad as (c & [] & _).
Qed.

(** C7 (as amended). [Decode] has no error result: for every string it
    returns a byte slice, which is empty exactly when the string is empty
    or has a character outside the 58-symbol alphabet; the decoder of the
    specification, which has an error result, fails exactly on the strings
    with such a character, and [Decode] returns the empty slice for
    them. *)
Theorem Decode_invalid_character s :
  (base58.Decode s = []
   <-> s = EmptyString
       \/ exists c, In c (list_ascii_of_string s) /\ ~ in_alphabet c)
  /\ (base58.base58Decode s = base58.InvalidCharacterError
      <-> exists c, In c (list_ascii_of_string s) /\ ~ in_alphabet c)
  /\ (base58.base58Decode s = base58.InvalidCharacterError ->
      base58.Decode s = [])
  /\ (forall val, base58.base58Decode s = base58.Decoded val ->
                  base58.Decode s = val).
Proof.
  split; [apply Decode_nil|]. split; [apply base58Decode_error|].
  unfold base58.Decode. split.
  - intros ->. reflexivity.
  - intros val ->. reflexivity.
Qed.

(** ** The claims on concrete inputs *)

Lemma toy_digest_length n b : length (toy_digest n b) = n.
Proof.
  unfold toy_digest. rewrite length_firstn. cbn [length].
  rewrite length_app, repeat_length. lia.
Qed.

(** C9 (counterexample). A slice of length 0 and capacity 32 is shorter
    than 32 bytes, and [HashPubKey] returns a 20-byte digest on it. *)
Lemma HashPubKey_short_slice_no_panic :
  Go.len empty_cap32 < 32
  /\ exists d w',
       HashPubKey (toy_digest 32) (toy_digest 20) (fun _ => O)
                  empty_cap32 toy_world = (Go.Ok d, w')
       /\ length d = 20%nat.
Proof.
  split; [reflexivity|]. eexists. eexists.
  split; vm_compute; reflexivity.
Qed.

Lemma GetBtcAddress_spec_witness :
  Go.len (PublicKey toy_wallet) = 64
  /\ exists address w',
       GetBtcAddress (toy_digest 32) (toy_digest 20) (fun _ => O)
                     toy_wallet toy_world = (Go.Ok address, w')
       /\ length (base58.Decode address) = 25%nat.
Proof.
  split; [reflexivity|].
  destruct (GetBtcAddress_spec (toy_digest 32) (toy_digest 20) (fun _ => O)
              (toy_digest_length 32) (toy_digest_length 20)
              toy_wallet toy_world eq_refl) as (w' & E & _ & H25).
  eexists. exists w'. split; [exact E | exact H25].
Defined.

Lemma ValidateAddress_of_generated_witness :
  newKeyPair (fun _ => O) toy_world
  = (Go.Ok (key153, pubKey153), mkWorld [] [] [])
  /\ 32 <= Go.cap pubKey153
  /\ exists w2,
       (address <- GetBtcAddress (toy_digest 32) (toy_digest 20) (fun _ => O)
                     (mkWallet key153 pubKey153) ;;
        ValidateAddress (toy_digest 32) (fun _ => O) address)
         (mkWorld [] [] [])
       = (Go.Ok true, w2).
Proof.
  assert (Hgen : newKeyPair (fun _ => O) toy_world
                 = (Go.Ok (key153, pubKey153), mkWorld [] [] []))
    by (vm_compute; reflexivity).
  assert (Hcap : 32 <= Go.cap pubKey153) by (vm_compute; discriminate).
  split; [exact Hgen|]. split; [exact Hcap|].
  exact (proj1 (ValidateAddress_of_generated
                  (toy_digest 32) (toy_digest 20) (fun _ => O)
                  (toy_digest_length 32) toy_world key153 pubKey153
                  (mkWorld [] [] []) Hgen Hcap)).
Defined.

Lemma GetEthAddress_spec_witness :
  exists address w',
    GetEthAddress (toy_digest 32) toy_wallet toy_world = (Go.Ok address, w')
    /\ String.length address = 40%nat
    /\ Forall lower_hex (list_ascii_of_string address).
Proof.
  destruct (GetEthAddress_spec (toy_digest 32) (toy_digest_length 32)
              toy_wallet toy_world) as (w' & E & _ & H40 & Hhex).
  eexists. exists w'. split; [exact E|]. split; [exact H40 | exact Hhex].
Defined.

Lemma ValidateAddress_any_version_witness :
  (5 <= length toy_payload)%nat
  /\ hd_error toy_payload = Some x05
  /\ ValidateAddress (toy_digest 32) (fun _ => O)
       (base58.Encode toy_payload) toy_world = (Go.Ok true, toy_world).
Proof.
  split; [vm_compute; lia|]. split; [reflexivity|].
  apply (ValidateAddress_any_version (toy_digest 32) (fun _ => O)
           (toy_digest_length 32) toy_payload toy_world).
  - vm_compute. lia.
  - vm_compute. reflexivity.
Defined.

Lemma HashPubKey_domain_witness :
  32 <= Go.cap empty_cap32
  /\ exists w',
       HashPubKey (toy_digest 32) (toy_digest 20) (fun _ => O)
                  empty_cap32 toy_world
       = (Go.Ok (pubKeyHash_of (toy_digest 32) (toy_digest 20) empty_cap32), w')
       /\ length (pubKeyHash_of (toy_digest 32) (toy_digest 20) empty_cap32)
          = 20%nat.
Proof.
  assert (Hcap : 32 <= Go.cap empty_cap32) by (vm_compute; discriminate).
  split; [exact Hcap|].
  exact (proj2 (proj2 (HashPubKey_domain (toy_digest 32) (toy_digest 20)
                         (fun _ => O) (toy_digest_length 20)
                         empty_cap32 toy_world)) Hcap).
Defined.

Lemma addresses_depend_on_PublicKey_only_witness :
  PrivateKey toy_wallet <> PrivateKey toy_wallet'
  /\ PublicKey toy_wallet = PublicKey toy_wallet'
  /\ GetEthAddress (toy_digest 32) toy_wallet toy_world
     = GetEthAddress (toy_digest 32) toy_wallet' toy_world
  /\ GetBtcAddress (toy_digest 32) (toy_digest 20) (fun _ => O)
       toy_wallet toy_world
     = GetBtcAddress (toy_digest 32) (toy_digest 20) (fun _ => O)
         toy_wallet' toy_world.
Proof.
  split; [discriminate|]. split; [reflexivity|].
  destruct (addresses_depend_on_PublicKey_only
              (toy_digest 32) (toy_digest 32) (toy_digest 20) (fun _ => O)
              (toy_digest_length 32) toy_wallet toy_wallet' eq_refl)
    as (Heth & Hbtc & _).
  split; [apply Heth | apply Hbtc].
Defined.

(** * Further properties *)

(** ** Counting digits *)

Section DigitCount.

Variable base : Z.
Hypothesis base_ge_2 : 2 <= base.

Lemma digits_length_mono fuel x y :
  x <= y ->
  (length (big.digits base fuel x) <= length (big.digits base fuel y))%nat.
Proof.
  revert x y. induction fuel as [|fuel IH]; intros x y Hxy; [reflexivity|].
  cbn [big.digits]. destruct (Z.ltb_spec 0 x) as [Hx|Hx].
  - destruct (Z.ltb_spec 0 y) as [_|Hy]; [|lia].
    cbn [length]. apply le_n_S, IH, Z.div_le_mono; lia.
  - cbn [length]. lia.
Qed.

(** Enough fuel is enough: the digits do not depend on it. *)
Lemma digits_fuel f1 f2 x :
  0 <= x < 2 ^ Z.of_nat f1 -> x < 2 ^ Z.of_nat f2 ->
  big.digits base f1 x = big.digits base f2 x.
Proof.
  intros H1 H2. destruct (digits_spec base base_ge_2 f1 x H1) as [Hn He].
  rewrite <- He at 2. symmetry. apply digits_eval; [exact base_ge_2 | exact Hn|].
  rewrite He. exact H2.
Qed.

Lemma digits_length_le fuel (k : nat) x :
  x < base ^ Z.of_nat k -> (length (big.digits base fuel x) <= k)%nat.
Proof.
  revert fuel x. induction k as [|k IH]; intros fuel x Hx.
  - rewrite digits_zero by (simpl in Hx; lia). reflexivity.
  - destruct fuel as [|fuel]; [cbn; lia|]. cbn [big.digits].
    destruct (Z.ltb_spec 0 x) as [Hpos|_]; [|cbn; lia].
    cbn [length]. apply le_n_S, IH.
    rewrite Nat2Z.inj_succ, Z.pow_succ_r in Hx by lia.
    apply Z.div_lt_upper_bound; lia.
Qed.

Lemma digits_length_gt fuel (k : nat) x :
  base ^ Z.of_nat k <= x < 2 ^ Z.of_nat fuel ->
  (k < length (big.digits base fuel x))%nat.
Proof.
  revert fuel x. induction k as [|k IH]; intros fuel x [Hlo Hhi].
  - destruct fuel as [|fuel]; [simpl in *; lia|]. cbn [big.digits].
    destruct (Z.ltb_spec 0 x); [cbn; lia | simpl in Hlo; lia].
  - assert (Hb : 0 < base ^ Z.of_nat k) by (apply Z.pow_pos_nonneg; lia).
    rewrite Nat2Z.inj_succ, Z.pow_succ_r in Hlo by lia.
    destruct fuel as [|fuel]; [simpl in Hhi; nia|]. cbn [big.digits].
    destruct (Z.ltb_spec 0 x); [|nia]. cbn [length].
    apply -> Nat.succ_lt_mono. apply IH. split.
    + apply Z.div_le_lower_bound; lia.
    + apply Z.div_lt_upper_bound; [lia|].
      rewrite Nat2Z.inj_succ, Z.pow_succ_r in Hhi by lia. nia.
Qed.

End DigitCount.

(** A smaller base needs at least as many digits. *)
Lemma digits_length_base b1 b2 fuel x :
  2 <= b1 <= b2 -> 0 <= x ->
  (length (big.digits b2 fuel x) <= length (big.digits b1 fuel x))%nat.
Proof.
  intros Hb. revert x. induction fuel as [|fuel IH]; intros x Hx; [reflexivity|].
  cbn [big.digits]. destruct (Z.ltb_spec 0 x) as [Hpos|_]; [|reflexivity].
  cbn [length]. apply le_n_S.
  transitivity (length (big.digits b1 fuel (x / b2))).
  - apply IH. apply Z.div_pos; lia.
  - apply digits_length_mono; [lia|]. apply Z.div_le_compat_l; lia.
Qed.

Lemma Bytes_length x : length (big.Bytes x) = length (big.digits 256 (big.BitLen x) x).
Proof.
  unfold big.Bytes. rewrite length_rev, length_map. reflexivity.
Qed.

(** [Bytes] has at most [k] bytes exactly for the numbers below 256^k. *)
Lemma Bytes_length_le x (k : nat) :
  0 <= x -> ((length (big.Bytes x) <= k)%nat <-> x < 256 ^ Z.of_nat k).
Proof.
  intros Hx. rewrite Bytes_length. split.
  - intros Hlen. destruct (Z_lt_le_dec x (256 ^ Z.of_nat k)) as [|Hge]; [assumption|].
    pose proof (digits_length_gt 256 ltac:(lia) (big.BitLen x) k x
                  (conj Hge (BitLen_spec x Hx))). lia.
  - apply digits_length_le. lia.
Qed.

Lemma SetBytes_lt b : big.SetBytes b < 256 ^ Z.of_nat (length b).
Proof.
  unfold big.SetBytes.
  assert (H : forall acc, 0 <= acc ->
              fold_left (fun a v => a * 256 + byte_val v) b acc
              < (acc + 1) * 256 ^ Z.of_nat (length b)).
  { induction b as [|c b IH]; intros acc Hacc.
    - simpl. lia.
    - cbn [fold_left length]. rewrite Nat2Z.inj_succ, Z.pow_succ_r by lia.
      pose proof (byte_val_range c).
      specialize (IH (acc * 256 + byte_val c) ltac:(lia)).
      assert (0 < 256 ^ Z.of_nat (length b)) by (apply Z.pow_pos_nonneg; lia).
      nia. }
  specialize (H 0 ltac:(lia)). lia.
Qed.

(** [SetBytes] undoes [Bytes]. *)
Lemma SetBytes_Bytes x : 0 <= x -> big.SetBytes (big.Bytes x) = x.
Proof.
  intros Hx. rewrite SetBytes_eval. unfold big.Bytes.
  destruct (digits_spec 256 ltac:(lia) (big.BitLen x) x
              (conj Hx (BitLen_spec x Hx))) as [Hn He].
  rewrite map_rev, rev_involutive, map_map.
  rewrite <- He at 3. f_equal.
  rewrite <- (map_id (big.digits 256 (big.BitLen x) x)) at 2.
  apply map_ext_in. intros d Hd.
  pose proof (normal_Forall _ _ Hn) as Hall. rewrite Forall_forall in Hall.
  specialize (Hall d Hd). unfold byte_of_Z, byte_val.
  destruct (Byte.of_N (Z.to_N d)) as [c|] eqn:E.
  - apply Byte.to_of_N in E. rewrite E. lia.
  - apply Byte.of_N_None_iff in E. lia.
Qed.

Lemma Bytes_hd x : hd_error (big.Bytes x) <> Some x00.
Proof.
  destruct (Z_lt_le_dec x 0) as [Hneg|Hx].
  { unfold big.Bytes, big.BitLen. destruct (Z.ltb_spec 0 x); [lia|]. discriminate. }
  unfold big.Bytes.
  destruct (digits_spec 256 ltac:(lia) (big.BitLen x) x
              (conj Hx (BitLen_spec x Hx))) as [Hn _].
  destruct (normal_inv _ _ Hn) as [->|(ds & d & -> & Hd & _)]; [discriminate|].
  rewrite map_app, rev_app_distr. cbn [map rev app hd_error].
  intros [= E]. apply (f_equal byte_val) in E.
  unfold byte_of_Z, byte_val in E.
  destruct (Byte.of_N (Z.to_N d)) as [c|] eqn:Ec.
  - apply Byte.to_of_N in Ec. rewrite Ec in E. simpl in E. lia.
  - apply Byte.of_N_None_iff in Ec. lia.
Qed.

(** ** The Base58 codec, the other way round *)

Lemma alphabet_at_b58 c : in_alphabet c -> base58.alphabet_at (base58.b58 c) = c.
Proof.
  intros Hc.
  assert (Hall : forallb (fun c => Ascii.eqb (base58.alphabet_at (base58.b58 c)) c)
                         (list_ascii_of_string base58.alphabet) = true)
    by (vm_compute; reflexivity).
  rewrite forallb_forall in Hall. apply Ascii.eqb_eq, Hall, Hc.
Qed.

Lemma numOnes_split s :
  s = repeat base58.alphabetIdx0 (base58.numOnes s)
      ++ skipn (base58.numOnes s) s
  /\ hd_error (skipn (base58.numOnes s) s) <> Some base58.alphabetIdx0.
Proof.
  induction s as [|c s [IH1 IH2]]; cbn [base58.numOnes].
  - split; [reflexivity | discriminate].
  - destruct (Ascii.eqb_spec c base58.alphabetIdx0) as [->|Hne].
    + cbn [repeat skipn app]. split; [now f_equal | exact IH2].
    + cbn [repeat skipn app hd_error]. split; [reflexivity|].
      intros [= E]. contradiction.
Qed.

Lemma numZeros_zeros n b :
  base58.numZeros (repeat x00 n ++ b) = (n + base58.numZeros b)%nat.
Proof.
  induction n as [|n IH]; [reflexivity|].
  cbn [repeat app base58.numZeros Byte.eqb]. rewrite IH. reflexivity.
Qed.

Lemma numZeros_hd b : hd_error b <> Some x00 -> base58.numZeros b = O.
Proof.
  destruct b as [|c b]; [reflexivity|]. cbn [hd_error base58.numZeros].
  intros Hc. destruct (Byte.eqb c x00) eqn:E; [|reflexivity].
  apply Byte.byte_dec_bl in E. subst c. contradiction.
Qed.

(** The value of a string over the alphabet. *)
Lemma value_valid s t :
  Forall in_alphabet s ->
  base58.value s (big.eval 58 t)
  = Some (big.eval 58 (rev (map base58.b58 s) ++ t)).
Proof.
  intros Hall. revert t. induction Hall as [|c s Hc Hall IH]; intros t.
  - reflexivity.
  - cbn [map base58.value rev]. pose proof (b58_range c Hc) as Hr.
    destruct (Z.eqb_spec (base58.b58 c) 255); [lia|].
    rewrite <- app_assoc. cbn [app]. rewrite <- IH. f_equal.
    cbn [big.eval]. lia.
Qed.

Lemma Encode_in_alphabet b :
  Forall in_alphabet (list_ascii_of_string (base58.Encode b)).
Proof.
  rewrite Encode_chars. apply Forall_app. split.
  - apply Forall_forall. intros c Hc. apply repeat_spec in Hc. subst c.
    apply (alphabet_at_in 0). lia.
  - set (x := big.SetBytes b).
    destruct (digits_spec 58 ltac:(lia) (big.BitLen x) x) as [Hn _].
    { split; [apply SetBytes_nonneg | apply BitLen_spec, SetBytes_nonneg]. }
    apply Forall_map, Forall_rev.
    eapply Forall_impl; [|apply normal_Forall, Hn].
    intros d Hd. now apply alphabet_at_in.
Qed.

(** Encoding what a string over the alphabet decodes to gives the string
    back. *)
Lemma Encode_Decode s :
  Forall in_alphabet (list_ascii_of_string s) ->
  base58.Encode (base58.Decode s) = s.
Proof.
  intros Hall. rewrite <- (string_of_list_ascii_of_string s) at 2.
  rewrite <- (string_of_list_ascii_of_string (base58.Encode _)). f_equal.
  rewrite Encode_chars. unfold base58.Decode, base58.base58Decode.
  set (cs := list_ascii_of_string s) in *.
  destruct (numOnes_split cs) as [Hsplit Hhd].
  set (n := base58.numOnes cs) in *. set (rest := skipn n cs) in *.
  assert (Hrest : Forall in_alphabet rest).
  { rewrite Hsplit in Hall. apply Forall_app in Hall. apply Hall. }
  assert (Hval : base58.value cs 0
                 = Some (big.eval 58 (rev (map base58.b58 rest)))).
  { rewrite Hsplit, value_ones. change 0 with (big.eval 58 []).
    rewrite value_valid by exact Hrest. now rewrite app_nil_r. }
  rewrite Hval. set (ds := rev (map base58.b58 rest)).
  assert (Hn : big.normal 58 ds).
  { unfold ds. destruct rest as [|c r]; [exact I|].
    cbn [map rev]. apply normal_snoc.
    - apply Forall_rev, Forall_map. inversion Hrest as [|? ? _ Hr]; subst.
      eapply Forall_impl; [|exact Hr]. intros a Ha. now apply b58_range.
    - inversion Hrest as [|? ? Hc _]; subst. pose proof (b58_range c Hc).
      assert (base58.b58 c <> 0).
      { intros H0. apply Hhd. cbn [hd_error]. f_equal. now apply b58_zero. }
      lia. }
  pose proof (eval_nonneg 58 ltac:(lia) ds Hn) as Hv.
  rewrite SetBytes_zeros, SetBytes_Bytes by exact Hv.
  rewrite numZeros_zeros, (numZeros_hd _ (Bytes_hd _)), Nat.add_0_r.
  rewrite (digits_eval 58 ltac:(lia) _ ds Hn) by (now apply BitLen_spec).
  unfold ds. rewrite rev_involutive, map_map.
  etransitivity; [|symmetry; exact Hsplit]. f_equal.
  rewrite <- (map_id rest) at 2. apply map_ext_in. intros c Hc.
  apply alphabet_at_b58. rewrite Forall_forall in Hrest. now apply Hrest.
Qed.

Lemma Encode_length b :
  length (list_ascii_of_string (base58.Encode b))
  = (base58.numZeros b
     + length (big.digits 58 (big.BitLen (big.SetBytes b)) (big.SetBytes b)))%nat.
Proof.
  rewrite Encode_chars, length_app, repeat_length, length_map, length_rev.
  reflexivity.
Qed.

(** An encoding is never shorter than the bytes it encodes. *)
Lemma Encode_length_ge b :
  (length b <= length (list_ascii_of_string (base58.Encode b)))%nat.
Proof.
  rewrite Encode_length. destruct (numZeros_split b) as [Hsplit Hhd].
  set (nz := base58.numZeros b) in *. set (rest := skipn nz b) in *.
  assert (Hx : big.SetBytes b = big.SetBytes rest)
    by (rewrite Hsplit; apply SetBytes_zeros).
  assert (Hlen : length b = (nz + length rest)%nat).
  { rewrite Hsplit at 1. rewrite length_app, repeat_length. reflexivity. }
  rewrite Hx, Hlen. apply Nat.add_le_mono_l.
  rewrite <- (Bytes_SetBytes rest Hhd) at 1. rewrite Bytes_length.
  apply digits_length_base; [lia | apply SetBytes_nonneg].
Qed.

Lemma Encode_hd_one b :
  hd_error b = Some x00 ->
  hd_error (list_ascii_of_string (base58.Encode b)) = Some base58.alphabetIdx0.
Proof.
  intros Hhd. rewrite Encode_chars. destruct b as [|v b]; [discriminate|].
  injection Hhd as ->. reflexivity.
Qed.

(** A 25-byte payload with version byte 0 has an encoding of at most 34
    characters. *)
Lemma Encode_length_25 b :
  length b = 25%nat -> hd_error b = Some x00 ->
  (length (list_ascii_of_string (base58.Encode b)) <= 34)%nat.
Proof.
  intros Hlen Hhd. rewrite Encode_length.
  destruct (numZeros_split b) as [Hsplit _].
  set (nz := base58.numZeros b) in *. set (rest := skipn nz b) in *.
  assert (Hnz : (1 <= nz)%nat).
  { unfold nz. destruct b as [|v b]; [discriminate|]. injection Hhd as ->.
    cbn. lia. }
  assert (Hrest : (nz + length rest = 25)%nat).
  { pose proof (f_equal (@length byte) Hsplit) as Hl.
    rewrite length_app, repeat_length in Hl. lia. }
  assert (Hx : big.SetBytes b < 256 ^ Z.of_nat (length rest)).
  { rewrite Hsplit, SetBytes_zeros. apply SetBytes_lt. }
  assert (Hpow : forall m, (m <= 24)%nat ->
                           256 ^ Z.of_nat m <= 58 ^ Z.of_nat (m + 9)).
  { assert (Hall : forallb (fun m => 256 ^ Z.of_nat m <=? 58 ^ Z.of_nat (m + 9))
                           (seq 0 25) = true) by (vm_compute; reflexivity).
    rewrite forallb_forall in Hall. intros m Hm.
    apply Z.leb_le, Hall, in_seq. lia. }
  specialize (Hpow (length rest) ltac:(lia)).
  pose proof (digits_length_le 58 ltac:(lia)
                (big.BitLen (big.SetBytes b)) (length rest + 9)
                (big.SetBytes b) ltac:(lia)).
  lia.
Qed.

(** ** The program: effects, frames, shapes *)

Section Coverage.

Variables Keccak256 Sum256 RIPEMD160 : list byte -> list byte.
Variable grow : nat -> nat.

Hypothesis Keccak256_length : forall b, length (Keccak256 b) = 32%nat.
Hypothesis Sum256_length : forall b, length (Sum256 b) = 32%nat.
Hypothesis RIPEMD160_length : forall b, length (RIPEMD160 b) = 20%nat.

Lemma HashPubKey_exact pubKey w :
  32 <= Go.cap pubKey ->
  HashPubKey Sum256 RIPEMD160 grow pubKey w
  = (Go.Ok (pubKeyHash_of Sum256 RIPEMD160 pubKey),
     printed w ["publicSHA256 32"; "publicRIPEMD160 20"]%string).
Proof.
  intros Hcap. unfold HashPubKey, Go.slice_to.
  rewrite reslice_Ok by lia. rewrite bind_lift_Ok. cbv beta.
  rewrite elems_append. cbv beta iota delta [Hasher_Write].
  unfold bind, Println, ret, Hasher_Sum, printed.
  cbn [written ripemd160_New app rand_Reader heap stdout Go.elems Go.make].
  rewrite Sum256_length, RIPEMD160_length, <- app_assoc. reflexivity.
Qed.

Lemma GetBtcAddress_exact wallet w :
  32 <= Go.cap (PublicKey wallet) ->
  GetBtcAddress Sum256 RIPEMD160 grow wallet w
  = (Go.Ok (base58.Encode (fullPayload_of Sum256 RIPEMD160 (PublicKey wallet))),
     printed w ["publicSHA256 32"; "publicRIPEMD160 20";
                "walletVersionedPayload length 21"]%string).
Proof.
  intros Hcap. unfold GetBtcAddress.
  rewrite (bind_Ok _ _ _ _ _ (HashPubKey_exact _ w Hcap)).
  unfold bind, Println, ret, printed, Go.len.
  rewrite !elems_append.
  cbn [rand_Reader heap stdout Go.elems Go.make app length].
  unfold fullPayload_of, pubKeyHash_of.
  rewrite RIPEMD160_length, <- app_assoc. reflexivity.
Qed.

Lemma GetEthAddress_exact wallet w :
  let publicHash := Keccak256 (Go.elems (PublicKey wallet)) in
  GetEthAddress Keccak256 wallet w
  = (Go.Ok (hex.EncodeToString (skipn (length publicHash - 20) publicHash)),
     printed w ["Eth: 32"%string]).
Proof.
  intros publicHash. unfold GetEthAddress, Go.slice_from. fold publicHash.
  assert (Hlen : Go.len (Go.make publicHash) = 32).
  { unfold Go.len. cbn [Go.make Go.elems]. unfold publicHash.
    rewrite Keccak256_length. reflexivity. }
  assert (Hcap : Go.cap (Go.make publicHash) = 32).
  { unfold Go.cap. cbn [Go.make Go.elems Go.spare length]. unfold publicHash.
    rewrite Keccak256_length. reflexivity. }
  rewrite Hlen, reslice_Ok by lia.
  unfold bind at 1. unfold Println. rewrite bind_lift_Ok.
  cbv beta iota delta [ret]. cbn [Go.elems Go.make Go.spare].
  rewrite app_nil_r. unfold publicHash. rewrite !Keccak256_length.
  change (Z.to_nat (32 - (32 - 20))) with 20%nat.
  change (Z.to_nat (32 - 20)) with 12%nat. change (32 - 20)%nat with 12%nat.
  rewrite firstn_all2 by (rewrite length_skipn, Keccak256_length; lia).
  reflexivity.
Qed.

Lemma String_length_chars s : String.length s = length (list_ascii_of_string s).
Proof.
  rewrite <- (string_of_list_ascii_of_string s) at 1.
  apply length_string_of_list_ascii.
Qed.

Lemma fullPayload_of_length pubKey :
  length (fullPayload_of Sum256 RIPEMD160 pubKey) = 25%nat
  /\ hd_error (fullPayload_of Sum256 RIPEMD160 pubKey) = Some walletVersion.
Proof.
  unfold fullPayload_of, pubKeyHash_of. split; [|reflexivity].
  cbn [app length]. rewrite length_app, RIPEMD160_length.
  unfold checksum. rewrite length_firstn, Sum256_length. reflexivity.
Qed.

(** X1. [ValidateAddress] panics exactly on the addresses whose decoded
    payload has fewer than 5 bytes; on every other address it returns,
    without printing or changing anything, whether the last 4 bytes of the
    payload are the checksum of the bytes before them. *)
Theorem ValidateAddress_decides address w :
  let payload := base58.Decode address in
  let n := length payload in
  ((n < 5)%nat ->
   exists p, ValidateAddress Sum256 grow address w = (Go.Panic p, w))
  /\ ((5 <= n)%nat ->
      exists valid,
        ValidateAddress Sum256 grow address w = (Go.Ok valid, w)
        /\ (valid = true
            <-> skipn (n - 4) payload
                = checksum Sum256 (firstn (n - 4) payload))).
Proof.
  intros payload n. split.
  - apply ValidateAddress_short.
  - intros Hn. eexists. split.
    + apply (ValidateAddress_run Sum256 grow address w Hn).
    + fold payload. fold n. rewrite Z.eqb_eq. apply Compare_eq.
Qed.

(** X2. Every address [GetBtcAddress] returns starts with '1', is written
    in the Base58 alphabet only, has between 25 and 34 characters, decodes
    to a 25-byte payload whose first byte is the wallet version 0x00, and
    is the encoding of that payload. *)
Theorem GetBtcAddress_shape wallet w address w' :
  GetBtcAddress Sum256 RIPEMD160 grow wallet w = (Go.Ok address, w') ->
  hd_error (list_ascii_of_string address) = Some "1"%char
  /\ Forall in_alphabet (list_ascii_of_string address)
  /\ (25 <= String.length address <= 34)%nat
  /\ length (base58.Decode address) = 25%nat
  /\ hd_error (base58.Decode address) = Some x00
  /\ base58.Encode (base58.Decode address) = address.
Proof.
  intros E.
  destruct (Z_lt_le_dec (Go.cap (PublicKey wallet)) 32) as [Hlt|Hge].
  { rewrite (GetBtcAddress_panic Sum256 RIPEMD160 grow wallet w Hlt) in E.
    discriminate. }
  rewrite (GetBtcAddress_exact wallet w Hge) in E. injection E as <- _.
  destruct (fullPayload_of_length (PublicKey wallet)) as [H25 Hhd].
  set (fp := fullPayload_of Sum256 RIPEMD160 (PublicKey wallet)) in *.
  split; [now apply Encode_hd_one|].
  split; [apply Encode_in_alphabet|].
  split.
  { rewrite String_length_chars. split.
    - rewrite <- H25. apply Encode_length_ge.
    - now apply Encode_length_25. }
  rewrite Decode_Encode. repeat split; assumption.
Qed.

(** X3. The Bitcoin address depends on the first 32 bytes of the public
    key only: two wallets whose keys have at least 32 bytes and agree on
    the first 32 get the same address (and print the same lines), whatever
    the rest of the keys. *)
Theorem GetBtcAddress_first_32_bytes wallet1 wallet2 w :
  32 <= Go.len (PublicKey wallet1) ->
  32 <= Go.len (PublicKey wallet2) ->
  firstn 32 (Go.elems (PublicKey wallet1))
  = firstn 32 (Go.elems (PublicKey wallet2)) ->
  GetBtcAddress Sum256 RIPEMD160 grow wallet1 w
  = GetBtcAddress Sum256 RIPEMD160 grow wallet2 w.
Proof.
  intros H1 H2 Heq.
  pose proof (len_le_cap (PublicKey wallet1)).
  pose proof (len_le_cap (PublicKey wallet2)).
  rewrite !GetBtcAddress_exact by lia.
  unfold fullPayload_of, pubKeyHash_of, shaInput.
  rewrite !(firstn_elems_spare 32) by lia. rewrite Heq. reflexivity.
Qed.

(** X4. What the derivations print: [GetBtcAddress] on a key with room for
    32 bytes prints the three lines "publicSHA256 32", "publicRIPEMD160
    20" and "walletVersionedPayload length 21", in this order, and on a
    key without that room it panics before printing anything;
    [GetEthAddress] prints the line "Eth: 32".  Neither changes anything
    else in the world. *)
Theorem derivations_print wallet w :
  (32 <= Go.cap (PublicKey wallet) ->
   snd (GetBtcAddress Sum256 RIPEMD160 grow wallet w)
   = printed w ["publicSHA256 32"; "publicRIPEMD160 20";
                "walletVersionedPayload length 21"]%string)
  /\ (Go.cap (PublicKey wallet) < 32 ->
      GetBtcAddress Sum256 RIPEMD160 grow wallet w
      = (Go.Panic (Go.SliceBoundsOutOfRange 0 32 (Go.cap (PublicKey wallet))),
         w))
  /\ snd (GetEthAddress Keccak256 wallet w) = printed w ["Eth: 32"%string].
Proof.
  split; [|split].
  - intros Hcap. rewrite GetBtcAddress_exact by exact Hcap. reflexivity.
  - apply GetBtcAddress_panic.
  - rewrite GetEthAddress_exact. reflexivity.
Qed.

Lemma P_pos : 0 < secp256k1.P.
Proof. reflexivity. Qed.

Lemma add_in_field p q :
  in_field p -> in_field q -> in_field (secp256k1.add p q).
Proof.
  intros Hp Hq. destruct p as [[x1 y1]|]; [|exact Hq].
  destruct q as [[x2 y2]|]; [|exact Hp]. cbn [secp256k1.add].
  destruct ((x1 =? x2) && ((y1 + y2) mod secp256k1.P =? 0)); [exact I|].
  cbv zeta. split; apply Z.mod_pos_bound, P_pos.
Qed.

Lemma mul_in_field k p : in_field p -> in_field (secp256k1.mul k p).
Proof.
  intros Hp. induction k as [k IH|k IH|]; cbn [secp256k1.mul]; cbv zeta.
  - apply add_in_field; [apply add_in_field; exact IH | exact Hp].
  - apply add_in_field; exact IH.
  - exact Hp.
Qed.

(** The coordinates of a generated key are in the field. *)
Lemma GenerateKey_in_field w private w1 :
  GenerateKey w = (Go.Ok (inl private), w1) ->
  0 <= ecdsa.X private < secp256k1.P /\ 0 <= ecdsa.Y private < secp256k1.P.
Proof.
  unfold GenerateKey. destruct (rand_Reader w) as [|k rest]; [discriminate|].
  cbv zeta.
  assert (Hf : in_field (secp256k1.ScalarBaseMult
                           (k mod (secp256k1.N - 1) + 1))).
  { unfold secp256k1.ScalarBaseMult.
    destruct (k mod (secp256k1.N - 1) + 1); try exact I.
    apply mul_in_field. vm_compute. repeat split; discriminate. }
  destruct (secp256k1.ScalarBaseMult _) as [[x y]|]; intros [= <- _].
  - exact Hf.
  - cbn. pose proof P_pos. lia.
Qed.

Lemma newKeyPair_inv w private pubKey w1 :
  newKeyPair grow w = (Go.Ok (private, pubKey), w1) ->
  GenerateKey w = (Go.Ok (inl private), w1)
  /\ pubKey = Go.append grow (Go.make (big.Bytes (ecdsa.X private)))
                        (big.Bytes (ecdsa.Y private)).
Proof.
  unfold newKeyPair, bind.
  destruct (GenerateKey w) as [[[priv|err]|p] w0]; cbv beta iota delta [ret log_Panic];
    intros E; try discriminate.
  injection E as -> <- ->. split; reflexivity.
Qed.


Lemma invoke_at {A} (method : Wallet -> M A) p v w :
  nth_error (heap w) p = Some v -> invoke p method w = method v w.
Proof. intros H. unfold invoke. rewrite H. reflexivity. Qed.



(** X7. The public key of a generated key pair has as many bytes as the
    two coordinates have significant bytes: never more than 64, and
    exactly 64 only when both coordinates are at least 2^248. *)
Theorem newKeyPair_public_key_length w private pubKey w1 :
  newKeyPair grow w = (Go.Ok (private, pubKey), w1) ->
  Go.len pubKey
  = Z.of_nat (length (big.Bytes (ecdsa.X private))
              + length (big.Bytes (ecdsa.Y private)))
  /\ Go.len pubKey <= 64
  /\ (Go.len pubKey = 64
      <-> 2 ^ 248 <= ecdsa.X private /\ 2 ^ 248 <= ecdsa.Y private).
Proof.
  intros E. destruct (newKeyPair_inv _ _ _ _ E) as [Eg ->].
  destruct (GenerateKey_in_field _ _ _ Eg) as [[Hx0 Hx] [Hy0 Hy]].
  unfold Go.len. rewrite elems_append. cbn [Go.elems Go.make].
  rewrite length_app.
  assert (HP : secp256k1.P < 256 ^ Z.of_nat 32) by reflexivity.
  pose proof (proj2 (Bytes_length_le (ecdsa.X private) 32 Hx0) ltac:(lia)).
  pose proof (proj2 (Bytes_length_le (ecdsa.Y private) 32 Hy0) ltac:(lia)).
  pose proof (Bytes_length_le (ecdsa.X private) 31 Hx0) as Hx31.
  pose proof (Bytes_length_le (ecdsa.Y private) 31 Hy0) as Hy31.
  change (256 ^ Z.of_nat 31) with (2 ^ 248) in *.
  split; [reflexivity|]. split; [lia|]. split.
  - intros Hlen. split.
    + destruct (Z_lt_le_dec (ecdsa.X private) (2 ^ 248)) as [Hlt|]; [|assumption].
      apply Hx31 in Hlt. lia.
    + destruct (Z_lt_le_dec (ecdsa.Y private) (2 ^ 248)) as [Hlt|]; [|assumption].
      apply Hy31 in Hlt. lia.
  - intros [Hxb Hyb].
    assert (~ (length (big.Bytes (ecdsa.X private)) <= 31)%nat)
      by (rewrite Hx31; lia).
    assert (~ (length (big.Bytes (ecdsa.Y private)) <= 31)%nat)
      by (rewrite Hy31; lia).
    lia.
Qed.

(** X8. Every address on which [ValidateAddress] returns, [true] or
    [false], is written in the Base58 alphabet only, has a payload of at
    least 5 bytes and is the Base58 encoding of that payload, so two such
    addresses with the same payload are the same string; and the call
    leaves the world as it was. *)
Theorem ValidateAddress_canonical address w valid w' :
  ValidateAddress Sum256 grow address w = (Go.Ok valid, w') ->
  w' = w
  /\ Forall in_alphabet (list_ascii_of_string address)
  /\ (5 <= length (base58.Decode address))%nat
  /\ base58.Encode (base58.Decode address) = address
  /\ (forall address2 valid2 w2,
        ValidateAddress Sum256 grow address2 w = (Go.Ok valid2, w2) ->
        base58.Decode address2 = base58.Decode address ->
        address2 = address).
Proof.
  assert (Hok : forall a v w0,
             ValidateAddress Sum256 grow a w = (Go.Ok v, w0) ->
             w0 = w /\ Forall in_alphabet (list_ascii_of_string a)
             /\ (5 <= length (base58.Decode a))%nat).
  { intros a v w0 E.
    assert (H5 : (5 <= length (base58.Decode a))%nat).
    { destruct (Nat.lt_ge_cases (length (base58.Decode a)) 5) as [Hlt|]; [|assumption].
      destruct (ValidateAddress_short Sum256 grow a w Hlt) as (p & Ep).
      rewrite Ep in E. discriminate. }
    split.
    { rewrite (ValidateAddress_run Sum256 grow a w H5) in E. now injection E. }
    split; [|exact H5].
    destruct (Forall_Exists_dec in_alphabet in_alphabet_dec
                (list_ascii_of_string a)) as [Hall|Hex]; [exact Hall|].
    apply Exists_exists in Hex.
    rewrite (ValidateAddress_invalid_character Sum256 grow a w Hex) in E.
    discriminate. }
  intros E. destruct (Hok _ _ _ E) as (Hw & Hall & H5).
  split; [exact Hw|]. split; [exact Hall|]. split; [exact H5|].
  split; [now apply Encode_Decode|].
  intros address2 valid2 w2 E2 Hd. destruct (Hok _ _ _ E2) as (_ & Hall2 & _).
  rewrite <- (Encode_Decode address2 Hall2), Hd. now apply Encode_Decode.
Qed.

Lemma printed_printed w l1 l2 :
  printed (printed w l1) l2 = printed w (l1 ++ l2).
Proof. unfold printed. cbn. now rewrite app_assoc. Qed.

Lemma Println_s_exact label s w :
  Println_s label s w = (Go.Ok tt, printed w [(label ++ " " ++ s)%string]).
Proof. reflexivity. Qed.

(** X9. [main], when the random source supplies an integer and the
    generated public key has room for 32 bytes, does not panic: it
    allocates the wallet, derives the Bitcoin address and then the Ethereum
    address, and prints nine entries, the last of which reports the
    Bitcoin address as valid. *)
Theorem main_run w private pubKey w1 :
  newKeyPair grow w = (Go.Ok (private, pubKey), w1) ->
  32 <= Go.cap pubKey ->
  let wallet := mkWallet private pubKey in
  let bitcoinAddress :=
    base58.Encode (fullPayload_of Sum256 RIPEMD160 pubKey) in
  let publicHash := Keccak256 (Go.elems pubKey) in
  let ethAddress :=
    hex.EncodeToString (skipn (length publicHash - 20) publicHash) in
  main Keccak256 Sum256 RIPEMD160 grow w
  = (Go.Ok tt,
     printed (mkWorld (rand_Reader w1) (heap w1 ++ [wallet]) (stdout w1))
       [("publicKey: " ++ hex.EncodeToString (Go.elems pubKey))%string;
        ("PrivateKey: "
         ++ hex.EncodeToString (big.Bytes (ecdsa.D private)))%string;
        "publicSHA256 32"%string;
        "publicRIPEMD160 20"%string;
        "walletVersionedPayload length 21"%string;
        "Eth: 32"%string;
        ("ethAddress " ++ ethAddress)%string;
        ("比特币地址: " ++ bitcoinAddress)%string;
        ("比特币地址是否有效:true" ++ newline ++ "：")%string]).
Proof.
  intros Ek Hcap wallet bitcoinAddress publicHash ethAddress.
  unfold main. rewrite (bind_Ok _ _ _ _ _ (NewWallet_run grow _ _ _ _ Ek)).
  fold wallet.
  set (w2 := mkWorld (rand_Reader w1) (heap w1 ++ [wallet]) (stdout w1)).
  assert (Hp : forall l, nth_error (heap (printed w2 l)) (length (heap w1))
                         = Some wallet).
  { intros l. cbn [printed heap w2].
    rewrite nth_error_app2, Nat.sub_diag by lia. reflexivity. }
  assert (Hp0 : nth_error (heap w2) (length (heap w1)) = Some wallet)
    by (apply (Hp [])).
  rewrite (bind_Ok _ _ w2 tt (printed w2 _)
             (eq_trans (invoke_at _ _ _ _ Hp0) (Println_s_exact _ _ _))).
  rewrite (bind_Ok _ _ _ tt (printed (printed w2 _) _)
             (eq_trans (invoke_at _ _ _ _ (Hp _)) (Println_s_exact _ _ _))).
  rewrite printed_printed.
  rewrite (bind_Ok _ _ _ _ _
             (eq_trans (invoke_at _ _ _ _ (Hp _))
                       (GetBtcAddress_exact wallet _ Hcap))).
  rewrite printed_printed.
  rewrite (bind_Ok _ _ _ _ _
             (eq_trans (invoke_at _ _ _ _ (Hp _))
                       (GetEthAddress_exact wallet _))).
  rewrite printed_printed.
  rewrite (bind_Ok _ _ _ _ _ (Println_s_exact _ _ _)), printed_printed.
  rewrite (bind_Ok _ _ _ _ _ (Println_s_exact _ _ _)), printed_printed.
  rewrite (bind_Ok _ _ _ true _
             (ValidateAddress_checksummed Sum256 grow Sum256_length
                (walletVersion :: pubKeyHash_of Sum256 RIPEMD160 pubKey) _
                ltac:(discriminate))).
  unfold Printf, printed. cbn [rand_Reader heap stdout].
  rewrite <- app_assoc. reflexivity.
Qed.

(** ** Signed-message hashes *)

Lemma chars_app (a b : string) :
  list_ascii_of_string (a ++ b)
  = list_ascii_of_string a ++ list_ascii_of_string b.
Proof.
  induction a as [|c a IH]; [reflexivity|]. cbn. now rewrite IH.
Qed.


Lemma chars_of_bytes data :
  list_ascii_of_string (string_of_list_byte data) = map ascii_of_byte data.
Proof.
  unfold string_of_list_byte. apply list_ascii_of_string_of_list_ascii.
Qed.

Lemma decimal_length_pos n : 0 <= n -> (1 <= length (fmt.decimal n))%nat.
Proof.
  intros H0.
  unfold fmt.decimal. destruct (Z.eqb_spec n 0) as [|Hn]; [cbn; lia|].
  rewrite length_rev, length_map. unfold big.BitLen.
  destruct (Z.ltb_spec 0 n) as [Hpos|]; [|lia].
  cbn [big.digits]. destruct (Z.ltb_spec 0 n); [cbn; lia | lia].
Qed.

(** A larger number has at least as many decimal digits. *)
Lemma decimal_length_mono n1 n2 :
  0 <= n1 <= n2 ->
  (length (fmt.decimal n1) <= length (fmt.decimal n2))%nat.
Proof.
  intros [H1 H12]. unfold fmt.decimal at 1.
  destruct (Z.eqb_spec n1 0) as [|Hn1]; [apply decimal_length_pos; lia|].
  unfold fmt.decimal. destruct (Z.eqb_spec n2 0); [lia|].
  rewrite !length_rev, !length_map.
  rewrite (digits_fuel 10 ltac:(lia) (big.BitLen n1) (big.BitLen n2) n1).
  - apply digits_length_mono; lia.
  - split; [lia | apply BitLen_spec; lia].
  - pose proof (BitLen_spec n2 ltac:(lia)). lia.
Qed.

Lemma verb_d_chars n :
  0 <= n -> list_ascii_of_string (fmt.verb_d n) = fmt.decimal n.
Proof.
  intros Hn. unfold fmt.verb_d. destruct (Z.ltb_spec n 0); [lia|].
  apply list_ascii_of_string_of_list_ascii.
Qed.

Lemma TextAndHash_chars data :
  list_ascii_of_string (snd (TextAndHash Keccak256 data))
  = list_ascii_of_string signedMessagePrefix
    ++ fmt.decimal (Z.of_nat (length data)) ++ map ascii_of_byte data.
Proof.
  unfold TextAndHash. cbn [snd Hasher_Write].
  rewrite !chars_app, verb_d_chars, chars_of_bytes by lia. reflexivity.
Qed.

(** X10. The message [TextAndHash] builds determines the data: two byte
    strings with the same message are equal, the decimal length in front
    of the data leaving no ambiguity. *)
Theorem TextAndHash_unambiguous data1 data2 :
  snd (TextAndHash Keccak256 data1) = snd (TextAndHash Keccak256 data2) ->
  data1 = data2.
Proof.
  intros E. apply (f_equal list_ascii_of_string) in E.
  rewrite !TextAndHash_chars in E. apply app_inv_head in E.
  set (n1 := length data1) in *. set (n2 := length data2) in *.
  assert (Hn : n1 = n2).
  { pose proof (f_equal (@length ascii) E) as Hl.
    rewrite !length_app, !length_map in Hl. fold n1 n2 in Hl.
    destruct (Nat.lt_trichotomy n1 n2) as [Hlt|[Heq|Hgt]]; [|exact Heq|].
    - pose proof (decimal_length_mono (Z.of_nat n1) (Z.of_nat n2) ltac:(lia)).
      lia.
    - pose proof (decimal_length_mono (Z.of_nat n2) (Z.of_nat n1) ltac:(lia)).
      lia. }
  rewrite Hn in E. apply app_inv_head in E.
  apply (f_equal (map byte_of_ascii)) in E. rewrite !map_map in E.
  rewrite !(map_ext _ (fun b => b) byte_of_ascii_of_byte), !map_id in E.
  exact E.
Qed.


End Coverage.

(** X12. Base58 the other way round: a string written in the alphabet
    only is the encoding of what it decodes to, so decoding is injective
    on such strings; every encoding is written in the alphabet only and
    has at least as many characters as the input has bytes. *)
Theorem base58_canonical :
  (forall s, Forall in_alphabet (list_ascii_of_string s) ->
             base58.Encode (base58.Decode s) = s)
  /\ (forall s1 s2,
        Forall in_alphabet (list_ascii_of_string s1) ->
        Forall in_alphabet (list_ascii_of_string s2) ->
        base58.Decode s1 = base58.Decode s2 -> s1 = s2)
  /\ (forall b, Forall in_alphabet (list_ascii_of_string (base58.Encode b)))
  /\ (forall b, (length b <= String.length (base58.Encode b))%nat).
Proof.
  split; [exact Encode_Decode|]. split.
  - intros s1 s2 H1 H2 E.
    rewrite <- (Encode_Decode s1 H1), <- (Encode_Decode s2 H2), E. reflexivity.
  - split; [exact Encode_in_alphabet|].
    intros b. rewrite <- (string_of_list_ascii_of_string (base58.Encode b)).
    rewrite length_string_of_list_ascii. apply Encode_length_ge.
Qed.

(** ** The further properties on concrete inputs *)

Lemma GetBtcAddress_shape_witness :
  exists address w',
    GetBtcAddress (toy_digest 32) (toy_digest 20) (fun _ => O)
                  toy_wallet toy_world = (Go.Ok address, w')
    /\ hd_error (list_ascii_of_string address) = Some "1"%char
    /\ (25 <= String.length address <= 34)%nat.
Proof.
  assert (E : GetBtcAddress (toy_digest 32) (toy_digest 20) (fun _ => O)
                toy_wallet toy_world
              = (Go.Ok (base58.Encode
                          (fullPayload_of (toy_digest 32) (toy_digest 20)
                             (PublicKey toy_wallet))),
                 printed toy_world
                   ["publicSHA256 32"; "publicRIPEMD160 20";
                    "walletVersionedPayload length 21"]%string))
    by (vm_compute; reflexivity).
  destruct (GetBtcAddress_shape (toy_digest 32) (toy_digest 20) (fun _ => O)
              (toy_digest_length 32) (toy_digest_length 20) _ _ _ _ E)
    as (Hhd & _ & Hlen & _).
  eexists. eexists. split; [exact E|]. split; [exact Hhd | exact Hlen].
Defined.

Lemma GetBtcAddress_first_32_bytes_witness :
  PublicKey toy_wallet <> PublicKey toy_wallet_Y
  /\ GetBtcAddress (toy_digest 32) (toy_digest 20) (fun _ => O)
       toy_wallet toy_world
     = GetBtcAddress (toy_digest 32) (toy_digest 20) (fun _ => O)
         toy_wallet_Y toy_world.
Proof.
  split; [discriminate|].
  apply (GetBtcAddress_first_32_bytes (toy_digest 32) (toy_digest 20)
           (fun _ => O) (toy_digest_length 32) (toy_digest_length 20)
           toy_wallet toy_wallet_Y toy_world).
  - vm_compute. discriminate.
  - vm_compute. discriminate.
  - reflexivity.
Defined.

Lemma derivations_print_witness :
  snd (GetBtcAddress (toy_digest 32) (toy_digest 20) (fun _ => O)
         toy_wallet toy_world)
  = printed toy_world ["publicSHA256 32"; "publicRIPEMD160 20";
                       "walletVersionedPayload length 21"]%string
  /\ snd (GetEthAddress (toy_digest 32) toy_wallet toy_world)
     = printed toy_world ["Eth: 32"%string].
Proof.
  destruct (derivations_print (toy_digest 32) (toy_digest 32) (toy_digest 20)
              (fun _ => O) (toy_digest_length 32) (toy_digest_length 32)
              (toy_digest_length 20) toy_wallet toy_world)
    as (Hbtc & _ & Heth).
  split; [apply Hbtc; vm_compute; discriminate | exact Heth].
Defined.



Lemma newKeyPair_public_key_length_witness :
  newKeyPair (fun _ => O) toy_world
  = (Go.Ok (key153, pubKey153), mkWorld [] [] [])
  /\ Go.len pubKey153 <= 64.
Proof.
  assert (Hgen : newKeyPair (fun _ => O) toy_world
                 = (Go.Ok (key153, pubKey153), mkWorld [] [] []))
    by (vm_compute; reflexivity).
  split; [exact Hgen|].
  exact (proj1 (proj2 (newKeyPair_public_key_length (fun _ => O) toy_world
                         key153 pubKey153 (mkWorld [] [] []) Hgen))).
Defined.

Lemma ValidateAddress_canonical_witness :
  ValidateAddress (toy_digest 32) (fun _ => O) toy_address toy_world
  = (Go.Ok true, toy_world)
  /\ base58.Encode (base58.Decode toy_address) = toy_address.
Proof.
  assert (E : ValidateAddress (toy_digest 32) (fun _ => O) toy_address
                toy_world = (Go.Ok true, toy_world))
    by (vm_compute; reflexivity).
  split; [exact E|].
  destruct (ValidateAddress_canonical (toy_digest 32) (fun _ => O)
              toy_address toy_world true toy_world E) as (_ & _ & _ & H & _).
  exact H.
Defined.

Lemma main_run_witness :
  newKeyPair (fun _ => O) toy_world
  = (Go.Ok (key153, pubKey153), mkWorld [] [] [])
  /\ 32 <= Go.cap pubKey153
  /\ fst (main (toy_digest 32) (toy_digest 32) (toy_digest 20) (fun _ => O)
            toy_world) = Go.Ok tt.
Proof.
  assert (Hgen : newKeyPair (fun _ => O) toy_world
                 = (Go.Ok (key153, pubKey153), mkWorld [] [] []))
    by (vm_compute; reflexivity).
  assert (Hcap : 32 <= Go.cap pubKey153) by (vm_compute; discriminate).
  split; [exact Hgen|]. split; [exact Hcap|].
  rewrite (main_run (toy_digest 32) (toy_digest 32) (toy_digest 20)
             (fun _ => O) (toy_digest_length 32) (toy_digest_length 32)
             (toy_digest_length 20) toy_world key153 pubKey153
             (mkWorld [] [] []) Hgen Hcap).
  reflexivity.
Defined.

Lemma TextAndHash_unambiguous_witness :
  snd (TextAndHash (toy_digest 32) [x41; x42])
  = snd (TextAndHash (toy_digest 32) [x41; x42])
  /\ [x41; x42] = [x41; x42].
Proof.
  split; [reflexivity|].
  apply (TextAndHash_unambiguous (toy_digest 32) [x41; x42] [x41; x42]).
  reflexivity.
Defined.


(** ** Addresses and the hashes behind them *)

Lemma Encode_injective b1 b2 : base58.Encode b1 = base58.Encode b2 -> b1 = b2.
Proof.
  intros E. rewrite <- (Decode_Encode b1), <- (Decode_Encode b2), E.
  reflexivity.
Qed.

Lemma app_eq_length_inv {A} (a b c d : list A) :
  a ++ c = b ++ d -> length a = length b -> a = b.
Proof.
  revert b. induction a as [|x a IH]; intros [|y b] E Hl; try discriminate.
  - reflexivity.
  - injection E as -> E. f_equal. apply IH; [exact E | now injection Hl].
Qed.

Lemma hexdigit_injective i j :
  (i < 16)%N -> (j < 16)%N -> hex.hexdigit i = hex.hexdigit j -> i = j.
Proof.
  intros Hi Hj E.
  assert (Hall : forallb (fun a => forallb (fun b =>
                   implb (Ascii.eqb (hex.hexdigit (N.of_nat a))
                                    (hex.hexdigit (N.of_nat b)))
                         (Nat.eqb a b)) (seq 0 16)) (seq 0 16) = true)
    by (vm_compute; reflexivity).
  rewrite forallb_forall in Hall.
  specialize (Hall (N.to_nat i) ltac:(apply in_seq; lia)).
  rewrite forallb_forall in Hall.
  specialize (Hall (N.to_nat j) ltac:(apply in_seq; lia)).
  rewrite !N2Nat.id, E, Ascii.eqb_refl in Hall. cbn [implb] in Hall.
  apply Nat.eqb_eq in Hall. lia.
Qed.

Lemma byte_of_nibbles (v : byte) :
  Byte.to_N v
  = (16 * N.shiftr (Byte.to_N v) 4 + N.land (Byte.to_N v) 15)%N.
Proof. destruct v; reflexivity. Qed.

Lemma EncodeToString_injective s1 s2 :
  hex.EncodeToString s1 = hex.EncodeToString s2 -> s1 = s2.
Proof.
  unfold hex.EncodeToString. intros E.
  apply (f_equal list_ascii_of_string) in E.
  rewrite !list_ascii_of_string_of_list_ascii in E.
  revert s2 E. induction s1 as [|v1 s1 IH]; intros [|v2 s2] E;
    try discriminate; [reflexivity|].
  cbn [flat_map app] in E.
  set (f := fun v : byte => [hex.hexdigit (N.shiftr (Byte.to_N v) 4);
                             hex.hexdigit (N.land (Byte.to_N v) 15)]) in *.
  assert (Ehi : hex.hexdigit (N.shiftr (Byte.to_N v1) 4)
                = hex.hexdigit (N.shiftr (Byte.to_N v2) 4))
    by (now injection E).
  assert (Elo : hex.hexdigit (N.land (Byte.to_N v1) 15)
                = hex.hexdigit (N.land (Byte.to_N v2) 15))
    by (now injection E).
  assert (Etl : flat_map f s1 = flat_map f s2) by (now injection E).
  destruct (nibbles_range v1) as [H1 H1']. destruct (nibbles_range v2) as [H2 H2'].
  pose proof (byte_of_nibbles v1) as B1. pose proof (byte_of_nibbles v2) as B2.
  apply hexdigit_injective in Ehi; [|assumption..].
  apply hexdigit_injective in Elo; [|assumption..].
  f_equal; [|now apply IH].
  assert (Hn : Byte.to_N v1 = Byte.to_N v2).
  { rewrite B1, B2, Ehi, Elo. reflexivity. }
  pose proof (Byte.of_to_N v1) as E1. rewrite Hn, Byte.of_to_N in E1.
  now injection E1.
Qed.

Section Derivations.

Variables Keccak256 Sum256 RIPEMD160 : list byte -> list byte.
Variable grow : nat -> nat.

Hypothesis Keccak256_length : forall b, length (Keccak256 b) = 32%nat.
Hypothesis Sum256_length : forall b, length (Sum256 b) = 32%nat.
Hypothesis RIPEMD160_length : forall b, length (RIPEMD160 b) = 20%nat.

(** X13. On a generated key pair whose X coordinate is at least 2^248,
    [HashPubKey] hashes exactly 0x02 followed by the 32 bytes of X: it
    returns RIPEMD160(SHA256(0x02 and the bytes of X)), whatever Y is. *)
Theorem HashPubKey_of_generated w private pubKey w1 w2 :
  newKeyPair grow w = (Go.Ok (private, pubKey), w1) ->
  2 ^ 248 <= ecdsa.X private ->
  length (big.Bytes (ecdsa.X private)) = 32%nat
  /\ HashPubKey Sum256 RIPEMD160 grow pubKey w2
     = (Go.Ok (RIPEMD160 (Sum256 (x02 :: big.Bytes (ecdsa.X private)))),
        printed w2 ["publicSHA256 32"; "publicRIPEMD160 20"]%string).
Proof.
  intros E HX. destruct (newKeyPair_inv grow _ _ _ _ E) as [Eg ->].
  destruct (GenerateKey_in_field _ _ _ Eg) as [[Hx0 Hx] _].
  assert (H32 : length (big.Bytes (ecdsa.X private)) = 32%nat).
  { assert (HP : secp256k1.P < 256 ^ Z.of_nat 32) by reflexivity.
    pose proof (proj2 (Bytes_length_le (ecdsa.X private) 32 Hx0) ltac:(lia)).
    pose proof (Bytes_length_le (ecdsa.X private) 31 Hx0) as H31.
    change (256 ^ Z.of_nat 31) with (2 ^ 248) in H31.
    assert (~ (length (big.Bytes (ecdsa.X private)) <= 31)%nat)
      by (rewrite H31; lia).
    lia. }
  split; [exact H32|].
  set (pubKey := Go.append grow _ _).
  assert (Helems : Go.elems pubKey
                   = big.Bytes (ecdsa.X private) ++ big.Bytes (ecdsa.Y private))
    by apply elems_append.
  assert (Hcap : 32 <= Go.cap pubKey).
  { pose proof (len_le_cap pubKey). unfold Go.len in *.
    rewrite Helems, length_app in *. lia. }
  rewrite (HashPubKey_exact Sum256 RIPEMD160 grow Sum256_length
             RIPEMD160_length pubKey w2 Hcap).
  unfold pubKeyHash_of, shaInput.
  rewrite Helems, <- app_assoc, firstn_app, H32, Nat.sub_diag.
  rewrite <- H32 at 1. rewrite firstn_all. cbn [firstn].
  rewrite app_nil_r. reflexivity.
Qed.

(** X14. Two wallets get the same Bitcoin address only when their keys
    have the same public-key hash: the address determines the 25-byte
    payload, hence the hash. *)
Theorem GetBtcAddress_same_address wallet1 wallet2 wa wb address wa' wb' :
  GetBtcAddress Sum256 RIPEMD160 grow wallet1 wa = (Go.Ok address, wa') ->
  GetBtcAddress Sum256 RIPEMD160 grow wallet2 wb = (Go.Ok address, wb') ->
  pubKeyHash_of Sum256 RIPEMD160 (PublicKey wallet1)
  = pubKeyHash_of Sum256 RIPEMD160 (PublicKey wallet2).
Proof.
  intros E1 E2.
  destruct (Z_lt_le_dec (Go.cap (PublicKey wallet1)) 32) as [Hlt|H1].
  { rewrite (GetBtcAddress_panic Sum256 RIPEMD160 grow _ wa Hlt) in E1.
    discriminate. }
  destruct (Z_lt_le_dec (Go.cap (PublicKey wallet2)) 32) as [Hlt|H2].
  { rewrite (GetBtcAddress_panic Sum256 RIPEMD160 grow _ wb Hlt) in E2.
    discriminate. }
  rewrite (GetBtcAddress_exact Sum256 RIPEMD160 grow Sum256_length
             RIPEMD160_length _ wa H1) in E1.
  rewrite (GetBtcAddress_exact Sum256 RIPEMD160 grow Sum256_length
             RIPEMD160_length _ wb H2) in E2.
  injection E1 as E1 _. injection E2 as E2 _.
  rewrite <- E2 in E1. apply Encode_injective in E1.
  unfold fullPayload_of in E1. cbn [app] in E1. injection E1 as E1.
  apply (app_eq_length_inv _ _ _ _ E1).
  unfold pubKeyHash_of. now rewrite !RIPEMD160_length.
Qed.

(** X15. Two wallets get the same Ethereum address exactly when the last
    20 bytes of the Keccak-256 digests of their public keys are equal:
    the hexadecimal encoding loses nothing. *)
Theorem GetEthAddress_same_address wallet1 wallet2 wa wb :
  let last20 wallet :=
    skipn (length (Keccak256 (Go.elems (PublicKey wallet))) - 20)
          (Keccak256 (Go.elems (PublicKey wallet))) in
  fst (GetEthAddress Keccak256 wallet1 wa)
  = fst (GetEthAddress Keccak256 wallet2 wb)
  <-> last20 wallet1 = last20 wallet2.
Proof.
  intros last20.
  rewrite !(GetEthAddress_exact Keccak256 Keccak256_length). cbn [fst].
  split.
  - intros [= E]. now apply EncodeToString_injective.
  - unfold last20. intros ->. reflexivity.
Qed.

End Derivations.

Lemma HashPubKey_of_generated_witness :
  newKeyPair (fun _ => O) world_G = (Go.Ok (key_G, pubKey_G), empty_world)
  /\ 2 ^ 248 <= ecdsa.X key_G
  /\ HashPubKey (toy_digest 32) (toy_digest 20) (fun _ => O) pubKey_G
       empty_world
     = (Go.Ok (toy_digest 20
                 (toy_digest 32 (x02 :: big.Bytes (ecdsa.X key_G)))),
        printed empty_world ["publicSHA256 32"; "publicRIPEMD160 20"]%string).
Proof.
  assert (Hgen : newKeyPair (fun _ => O) world_G
                 = (Go.Ok (key_G, pubKey_G), empty_world))
    by (vm_compute; reflexivity).
  assert (HX : 2 ^ 248 <= ecdsa.X key_G) by (vm_compute; discriminate).
  split; [exact Hgen|]. split; [exact HX|].
  exact (proj2 (HashPubKey_of_generated (toy_digest 32) (toy_digest 20)
                  (fun _ => O) (toy_digest_length 32) (toy_digest_length 20)
                  world_G key_G pubKey_G empty_world empty_world Hgen HX)).
Defined.

Lemma GetBtcAddress_same_address_witness :
  pubKeyHash_of (toy_digest 32) (toy_digest 20) (PublicKey toy_wallet)
  = pubKeyHash_of (toy_digest 32) (toy_digest 20) (PublicKey toy_wallet_Y).
Proof.
  pose (address := base58.Encode
                     (fullPayload_of (toy_digest 32) (toy_digest 20)
                        (PublicKey toy_wallet))).
  pose (w' := printed toy_world
                ["publicSHA256 32"; "publicRIPEMD160 20";
                 "walletVersionedPayload length 21"]%string).
  assert (E1 : GetBtcAddress (toy_digest 32) (toy_digest 20) (fun _ => O)
                 toy_wallet toy_world = (Go.Ok address, w'))
    by (vm_compute; reflexivity).
  assert (E2 : GetBtcAddress (toy_digest 32) (toy_digest 20) (fun _ => O)
                 toy_wallet_Y toy_world = (Go.Ok address, w'))
    by (vm_compute; reflexivity).
  exact (GetBtcAddress_same_address (toy_digest 32) (toy_digest 20)
           (fun _ => O) (toy_digest_length 32) (toy_digest_length 20)
           toy_wallet toy_wallet_Y toy_world toy_world address w' w' E1 E2).
Defined.

Lemma GetEthAddress_same_address_witness :
  fst (GetEthAddress (toy_digest 32) toy_wallet toy_world)
  = fst (GetEthAddress (toy_digest 32) toy_wallet' empty_world).
Proof.
  apply (GetEthAddress_same_address (toy_digest 32) (toy_digest_length 32)
           toy_wallet toy_wallet' toy_world empty_world).
  reflexivity.
Defined.
